(** * maya-mock: the naming helpers and the [cmds] session adaptor

    A shallow embedding of [maya_mock/base/naming.py] and of the two
    [maya_mock/cmds/session.py] revisions, with the properties of the
    scene-graph specification that concern them.

    Python [str] values are lists of characters ([list ascii]); the
    regular expressions the naming module builds as text are parsed and
    run by a small model of Python's [re] that covers the syntax these
    expressions are written in. *)

From Stdlib Require Import Ascii String List Bool Arith Lia.
Import ListNotations.

(** ** Python strings *)

Definition str := list ascii.

(** String literals of the source are written [s2l "..."]. *)
Definition s2l (s : string) : str := list_ascii_of_string s.

Definition ascii_in (c : ascii) (l : str) : bool := existsb (Ascii.eqb c) l.

Definition in_range (lo hi c : ascii) : bool :=
  (nat_of_ascii lo <=? nat_of_ascii c) && (nat_of_ascii c <=? nat_of_ascii hi).

Definition is_digit (c : ascii) : bool := in_range "0" "9" c.

Definition is_alpha (c : ascii) : bool := in_range "a" "z" c || in_range "A" "Z" c.

(** The class [\w] on ASCII text: letters, digits and the underscore. *)
Definition is_word (c : ascii) : bool := is_alpha c || is_digit c || Ascii.eqb c "_".

Definition newline : ascii := "010".

(** [s.replace(old, new)] for a one-character [old]. *)
Fixpoint replace (old : ascii) (new : str) (s : str) : str :=
  match s with
  | [] => []
  | c :: t => (if Ascii.eqb c old then new else [c]) ++ replace old new t
  end.

(** [s.startswith(prefix)]. *)
Fixpoint startswith (prefix s : str) : bool :=
  match prefix, s with
  | [], _ => true
  | _ :: _, [] => false
  | p :: prefix', c :: s' => Ascii.eqb p c && startswith prefix' s'
  end.

Fixpoint str_eqb (a b : str) : bool :=
  match a, b with
  | [], [] => true
  | x :: a', y :: b' => Ascii.eqb x y && str_eqb a' b'
  | _, _ => false
  end.

(** [name in names], for a list of names. *)
Definition name_in (name : str) (names : list str) : bool :=
  existsb (str_eqb name) names.

(** Truth value of an optional string flag: [None] and the empty string
    are false. *)
Definition truthy (o : option str) : bool :=
  match o with
  | Some (_ :: _) => true
  | _ => false
  end.

(** [a or b]. *)
Definition or_else (a b : option str) : option str := if truthy a then a else b.

(** ** A model of Python's [re] *)

Module Re.

(** One member of a bracketed character class. *)
Inductive item : Type :=
| IChar (c : ascii)
| IRange (lo hi : ascii)
| IWord.

Inductive regex : Type :=
| Empty
| Lit (c : ascii)
| Dot
| Class (items : list item)
| Bol
| Eol
| Cat (r1 r2 : regex)
| Or (r1 r2 : regex)
| Star (r : regex)
| Group (r : regex)
| NotAhead (r : regex).

(** *** Reading the expression text *)

Inductive token : Type :=
| TAtom (r : regex)
| TStar
| TOpen
| TOpenNotAhead
| TClose
| TBar.

(** Characters with a meaning of their own outside a class. *)
Definition metachars : str := s2l "\()[]|*.^$+?{}".

(** A backslash makes a punctuation character literal; [\w] is the word
    class; the other letter and digit escapes are not covered. *)
Definition lex_escape (c : ascii) : option regex :=
  if Ascii.eqb c "w" then Some (Class [IWord])
  else if is_word c then None
  else Some (Lit c).

(** [lex cls s]: [cls] is [Some acc] while inside a bracketed class, [acc]
    holding its members so far in reverse. *)
Fixpoint lex (cls : option (list item)) (s : str) : option (list token) :=
  match cls with
  | None =>
      match s with
      | [] => Some []
      | c :: t =>
          if Ascii.eqb c "\" then
            match t with
            | [] => None
            | e :: t' =>
                match lex_escape e, lex None t' with
                | Some r, Some ts => Some (TAtom r :: ts)
                | _, _ => None
                end
            end
          else if Ascii.eqb c "(" then
            match t with
            | q :: t' =>
                if Ascii.eqb q "?" then
                  match t' with
                  | e :: t'' =>
                      if Ascii.eqb e "!"
                      then option_map (cons TOpenNotAhead) (lex None t'')
                      else None
                  | [] => None
                  end
                else option_map (cons TOpen) (lex None t)
            | [] => option_map (cons TOpen) (lex None t)
            end
          else if Ascii.eqb c ")" then option_map (cons TClose) (lex None t)
          else if Ascii.eqb c "|" then option_map (cons TBar) (lex None t)
          else if Ascii.eqb c "*" then option_map (cons TStar) (lex None t)
          else if Ascii.eqb c "." then option_map (cons (TAtom Dot)) (lex None t)
          else if Ascii.eqb c "^" then option_map (cons (TAtom Bol)) (lex None t)
          else if Ascii.eqb c "$" then option_map (cons (TAtom Eol)) (lex None t)
          else if Ascii.eqb c "[" then lex (Some []) t
          else if ascii_in c metachars then None
          else option_map (cons (TAtom (Lit c))) (lex None t)
      end
  | Some acc =>
      match s with
      | [] => None
      | c :: t =>
          if Ascii.eqb c "]" then
            match acc with
            | [] => None
            | _ :: _ => option_map (cons (TAtom (Class (rev acc)))) (lex None t)
            end
          else if Ascii.eqb c "\" then
            match t with
            | e :: t' =>
                if Ascii.eqb e "w" then lex (Some (IWord :: acc)) t'
                else if is_word e then None
                else lex (Some (IChar e :: acc)) t'
            | [] => None
            end
          else if Ascii.eqb c "^" && match acc with [] => true | _ => false end
          then None
          else
            match t with
            | d :: ((hi :: t'') as t') =>
                if Ascii.eqb d "-" && negb (Ascii.eqb hi "]") then
                  if Ascii.eqb hi "\" then None
                  else if nat_of_ascii hi <? nat_of_ascii c then None
                  else lex (Some (IRange c hi :: acc)) t''
                else lex (Some (IChar c :: acc)) t
            | _ => lex (Some (IChar c :: acc)) t
            end
      end
  end.

(** A group under construction: the alternatives already closed by a bar
    and the atoms of the current one, both in reverse. *)
Record frame : Type := mkFrame { f_alts : list regex; f_seq : list regex }.

Definition empty_frame : frame := mkFrame [] [].

Fixpoint seq_of (atoms : list regex) : regex :=
  match atoms with
  | [] => Empty
  | [a] => a
  | a :: l => Cat a (seq_of l)
  end.

Fixpoint alt_of (first : regex) (others : list regex) : regex :=
  match others with
  | [] => first
  | r :: l => Or first (alt_of r l)
  end.

Definition close_frame (f : frame) : regex :=
  match rev (seq_of (rev (f_seq f)) :: f_alts f) with
  | [] => Empty
  | r :: l => alt_of r l
  end.

Definition push_atom (r : regex) (f : frame) : frame :=
  mkFrame (f_alts f) (r :: f_seq f).

(** What a star may follow: not an anchor, not another star. *)
Definition repeatable (r : regex) : bool :=
  match r with
  | Bol | Eol | Star _ | NotAhead _ | Empty => false
  | _ => true
  end.

Fixpoint parse (ts : list token) (cur : frame) (stack : list (bool * frame))
  : option regex :=
  match ts with
  | [] => match stack with [] => Some (close_frame cur) | _ :: _ => None end
  | TAtom r :: ts' => parse ts' (push_atom r cur) stack
  | TStar :: ts' =>
      match f_seq cur with
      | a :: l =>
          if repeatable a then parse ts' (mkFrame (f_alts cur) (Star a :: l)) stack
          else None
      | [] => None
      end
  | TOpen :: ts' => parse ts' empty_frame ((false, cur) :: stack)
  | TOpenNotAhead :: ts' => parse ts' empty_frame ((true, cur) :: stack)
  | TClose :: ts' =>
      match stack with
      | (look, parent) :: stack' =>
          let g := close_frame cur in
          parse ts' (push_atom (if look then NotAhead g else Group g) parent) stack'
      | [] => None
      end
  | TBar :: ts' =>
      parse ts' (mkFrame (seq_of (rev (f_seq cur)) :: f_alts cur) []) stack
  end.

(** [re.compile(text)]; [None] when the text is malformed or uses syntax
    outside the covered part. *)
Definition compile (text : str) : option regex :=
  match lex None text with
  | Some ts => parse ts empty_frame []
  | None => None
  end.

(** *** Running an expression *)

(** A position in the subject: whether it is the very start, and the text
    still ahead. *)
Definition pos : Type := (bool * str)%type.

Definition item_matches (i : item) (c : ascii) : bool :=
  match i with
  | IChar x => Ascii.eqb c x
  | IRange lo hi => in_range lo hi c
  | IWord => is_word c
  end.

Definition class_matches (items : list item) (c : ascii) : bool :=
  existsb (fun i => item_matches i c) items.

(** An atom that consumes one character satisfying [f]. *)
Definition eat (f : ascii -> bool) (p : pos) : list pos :=
  match snd p with
  | c :: t => if f c then [(false, t)] else []
  | [] => []
  end.

(** Repetition, greedy: another round first, stopping last; a round that
    consumes nothing ends the loop. *)
Fixpoint star_loop (step : pos -> list pos) (fuel : nat) (p : pos) : list pos :=
  match fuel with
  | 0 => [p]
  | S n =>
      flat_map
        (fun q => if length (snd q) <? length (snd p) then star_loop step n q else [])
        (step p)
      ++ [p]
  end.

(** [run r p]: the positions at which a match of [r] begun at [p] can end,
    in the order a backtracking matcher tries them. *)
Fixpoint run (r : regex) (p : pos) : list pos :=
  match r with
  | Empty => [p]
  | Lit c => eat (Ascii.eqb c) p
  | Dot => eat (fun x => negb (Ascii.eqb x newline)) p
  | Class items => eat (class_matches items) p
  | Bol => if fst p then [p] else []
  | Eol =>
      match snd p with
      | [] => [p]
      | [c] => if Ascii.eqb c newline then [p] else []
      | _ => []
      end
  | Cat r1 r2 => flat_map (run r2) (run r1 p)
  | Or r1 r2 => run r1 p ++ run r2 p
  | Star r' => star_loop (run r') (length (snd p)) p
  | Group r' => run r' p
  | NotAhead r' => match run r' p with [] => [p] | _ :: _ => [] end
  end.

(** [re.match(r, s)] finds a match: one that begins at the start of [s]. *)
Definition matches (r : regex) (s : str) : bool :=
  match run r (true, s) with [] => false | _ :: _ => true end.

(** [r.sub(repl, s)]: scan left to right; at each position the first match
    the matcher finds is replaced by [repl]; a position without a match,
    or with an empty one, keeps its character. [skip] counts the
    characters of the last match still to be passed over. *)
Fixpoint sub_loop (r : regex) (repl : str) (start : bool) (skip : nat) (s : str)
  : str :=
  match s with
  | [] => match run r (start, []) with [] => [] | _ :: _ => repl end
  | c :: t =>
      match skip with
      | S k => sub_loop r repl false k t
      | 0 =>
          match run r (start, s) with
          | [] => c :: sub_loop r repl false 0 t
          | (_, rest) :: _ =>
              match length s - length rest with
              | 0 => repl ++ c :: sub_loop r repl false 0 t
              | S k => repl ++ sub_loop r repl false k t
              end
          end
      end
  end.

Definition sub (r : regex) (repl s : str) : str := sub_loop r repl true 0 s.

End Re.

(** ** naming.py *)

(** [_REGEX_INVALID_NODE_NAME_CHARS], as [re.compile] reads its text. *)
Definition REGEX_INVALID_NODE_NAME_CHARS_text : str :=
  s2l "^([0-9])|(?!A-Za-z0-9:_)".

Definition _REGEX_INVALID_NODE_NAME_CHARS : Re.regex :=
  Eval vm_compute in
    match Re.compile REGEX_INVALID_NODE_NAME_CHARS_text with
    | Some r => r
    | None => Re.Empty
    end.

Definition conform_node_name (name : str) : str :=
  Re.sub _REGEX_INVALID_NODE_NAME_CHARS [] name.

(** [join(left, right)]. *)
Fixpoint lstrip (c : ascii) (s : str) : str :=
  match s with
  | x :: t => if Ascii.eqb x c then lstrip c t else s
  | [] => []
  end.

Definition strip (c : ascii) (s : str) : str := rev (lstrip c (rev (lstrip c s))).

Definition join (left right : str) : str :=
  let dagpath := strip "|" left ++ "|"%char :: strip "|" right in
  if startswith (s2l "|") left then "|"%char :: dagpath else dagpath.

Definition pattern_to_regex (pattern : option str) : str :=
  match pattern with
  | None => s2l ".*"
  | Some pattern =>
      let pattern := replace "*" (s2l "[\w]*") pattern in
      let pattern := replace "|" (s2l "\|") pattern in
      let pattern :=
        if startswith (s2l "|") pattern
        then s2l "^" ++ pattern
        else s2l "(^|.*\|)" ++ pattern in
      pattern ++ s2l "$"
  end.

(** [is_valid_node_name(name)], with the constant [BLACKLISTED_NODE_NAMES]
    of [maya_mock.base.constants] as a parameter. The result is the truth
    value of [name and name not in BLACKLISTED_NODE_NAMES]. *)
Definition is_valid_node_name (BLACKLISTED_NODE_NAMES : list str) (name : str) : bool :=
  match name with
  | [] => false
  | _ :: _ => negb (name_in name BLACKLISTED_NODE_NAMES)
  end.

(** Modelled from the spec: how a compiled pattern is applied to a
    candidate path is in [maya_mock.base], outside these sources; the
    matcher "compile(pattern)" of the Path/Pattern Engine is taken to be
    [re.match] of the expression [pattern_to_regex] returns against the
    path. [None]: the expression is outside the covered syntax. *)
Definition path_matches (pattern : option str) (path : str) : option bool :=
  match Re.compile (pattern_to_regex pattern) with
  | Some r => Some (Re.matches r path)
  | None => None
  end.

(** ** Patterns and what they denote *)

(** A character that [re] reads as itself: any but the ones with a
    meaning of their own in an expression. The characters of a node
    address, name characters and the namespace colon, are among them. *)
Definition is_literal_char (c : ascii) : bool := negb (ascii_in c Re.metachars).

(** The characters of the patterns considered: literal characters, the
    hierarchy separator and the wildcard. *)
Definition is_pattern_char (c : ascii) : bool :=
  is_literal_char c || Ascii.eqb c "|" || Ascii.eqb c "*".

(** [glob p s]: the atoms [pattern_to_regex] compiles [p] to consume
    exactly the text [s]. This is the code's reading of a pattern: the
    starred word class consumes a run of word characters of any length,
    none included, every other character itself. *)
Inductive glob : str -> str -> Prop :=
| glob_nil : glob [] []
| glob_wild (p w s : str) :
    forallb is_word w = true -> glob p s -> glob ("*"%char :: p) (w ++ s)
| glob_char (c : ascii) (p s : str) :
    c <> "*"%char -> glob p s -> glob (c :: p) (c :: s).

(** A position of a path at which a segment begins. *)
Definition segment_start (before : str) : Prop :=
  before = [] \/ exists before', before = before' ++ ["|"%char].

Definition not_newline (c : ascii) : bool := negb (Ascii.eqb c newline).

Definition no_newline (s : str) : bool := forallb not_newline s.

(** A segment start that the leading group of the expression can reach:
    the dot of that group does not pass a line break, so none lies before
    the separator. *)
Definition reachable_start (before : str) : Prop :=
  before = [] \/
  exists before', before = before' ++ ["|"%char] /\ forallb not_newline before' = true.

(** What one character of a pattern becomes in the compiled expression,
    and the tokens it is read from. *)
Definition pattern_atom (c : ascii) : Re.regex :=
  if Ascii.eqb c "*" then Re.Star (Re.Class [Re.IWord]) else Re.Lit c.

Definition pattern_tokens (c : ascii) : list Re.token :=
  if Ascii.eqb c "*" then [Re.TAtom (Re.Class [Re.IWord]); Re.TStar]
  else [Re.TAtom (Re.Lit c)].

(** The group every compiled pattern opens with: the start of the path, or
    anything followed by a separator. *)
Definition anywhere : Re.regex :=
  Re.Group (Re.Or Re.Bol (Re.Cat (Re.Star Re.Dot) (Re.Lit "|"))).

(** Whether a position is still the start of the subject once [m] has
    been consumed. *)
Definition flag_after (b : bool) (m : str) : bool :=
  match m with [] => b | _ :: _ => false end.

(** What the look-ahead of [_REGEX_INVALID_NODE_NAME_CHARS] holds: no
    character class, but the eleven characters between its parentheses. *)
Definition lookahead_text : Re.regex := Re.seq_of (map Re.Lit (s2l "A-Za-z0-9:_")).

(** ** The session *)

(** Attribute values are Python objects the adaptor passes on without
    looking inside; [float_zero] is the default [0.0] of [addAttr]. *)
Class PyValue : Type := { value : Type; float_zero : value }.

Module Session.

Section Model.
Context `{PyValue}.

(** Modelled from the spec: the node, port and connection objects are
    classes of [maya_mock.base], outside these sources. Objects carry an
    identifier that stands for their identity ([is]). *)
Record MockedNode : Type := mkNode {
  node_id : nat;
  node_name : str;
  node_type : str;
  node_parent : option nat
}.

Record MockedPort : Type := mkPort {
  port_id : nat;
  port_owner : nat;
  port_name : str;
  port_short_name : option str;
  port_type : str;
  port_value : value;
  port_user_defined : bool;
  port_nice_name : option str
}.

(** A variable that holds a port or [None]. *)
Definition port_ref : Type := option MockedPort.

Definition same_port (a b : port_ref) : bool :=
  match a, b with
  | None, None => true
  | Some p, Some q => port_id p =? port_id q
  | _, _ => false
  end.

Record MockedConnection : Type := mkConnection {
  conn_src : port_ref;
  conn_dst : port_ref
}.

(** The texts of the errors and warnings of the adaptor. *)
Inductive message : Type :=
| MsgSourceNotFound (src : str)
| MsgDestinationNotFound (dst : str)
| MsgAlreadyConnected (src dst : MockedPort)
| MsgMayaCommandError
| MsgNoConnection (src dst : MockedPort)
| MsgNeedsName.

(** The error kinds of the core. *)
Inductive core_error : Type :=
| InvalidName
| NameCollision
| NotFound
| DuplicateConnection
| MissingConnection
| AmbiguousArguments.

Inductive exception : Type :=
| RuntimeError (msg : message)
| AttributeError
| CoreError (e : core_error).

Record MockedSession : Type := mkSession {
  nodes : list MockedNode;
  ports : list MockedPort;
  connections : list MockedConnection;
  selection : list MockedNode;
  warnings : list message
}.

(** A call returns a value or raises; either way it leaves a session. *)
Inductive result (A : Type) : Type :=
| Ok (a : A) (s : MockedSession)
| Raise (e : exception) (s : MockedSession).

Definition M (A : Type) : Type := MockedSession -> result A.

Definition ret {A : Type} (a : A) : M A := fun s => Ok A a s.

Definition raise {A : Type} (e : exception) : M A := fun s => Raise A e s.

Definition bind {A B : Type} (m : M A) (k : A -> M B) : M B :=
  fun s =>
    match m s with
    | Ok _ a s' => k a s'
    | Raise _ e s' => Raise B e s'
    end.

Definition session_of {A : Type} (r : result A) : MockedSession :=
  match r with Ok _ _ s => s | Raise _ _ s => s end.

Definition connects (src dst : port_ref) (c : MockedConnection) : bool :=
  same_port (conn_src c) src && same_port (conn_dst c) dst.

(** Modelled from the spec: [get_connection_by_ports(src, dst)] of the
    session, "exact ordered-pair lookup; returns none if absent". *)
Definition get_connection_by_ports (src dst : port_ref) : M (option MockedConnection) :=
  fun s => Ok _ (find (connects src dst) (connections s)) s.

(** Modelled from the spec: [create_connection(src_port, dst_port)] of the
    session, "fails with a duplicate-connection error if an identical
    ordered pair already exists; otherwise records the edge". *)
Definition create_connection (src dst : port_ref) : M MockedConnection :=
  fun s =>
    if existsb (connects src dst) (connections s)
    then Raise _ (CoreError DuplicateConnection) s
    else
      let c := mkConnection src dst in
      Ok _ c (mkSession (nodes s) (ports s) (connections s ++ [c])
                        (selection s) (warnings s)).

(** Modelled from the spec: [remove_connection(connection)] of the
    session, "removes a specific edge". *)
Definition remove_connection (c : MockedConnection) : M unit :=
  fun s =>
    Ok _ tt (mkSession (nodes s) (ports s)
               (filter (fun c' => negb (connects (conn_src c) (conn_dst c) c'))
                       (connections s))
               (selection s) (warnings s)).

(** Modelled from the spec: [warning(message)] of the session, the
    fire-and-forget logging hook; the sink is kept as a list. *)
Definition warning (msg : message) : M unit :=
  fun s =>
    Ok _ tt (mkSession (nodes s) (ports s) (connections s) (selection s)
                       (warnings s ++ [msg])).

(** Reading an attribute of the session. *)
Definition gets {A : Type} (f : MockedSession -> A) : M A := fun s => Ok A (f s) s.

(** The assignment [session.selection = value]. *)
Definition set_selection (sel : list MockedNode) : M unit :=
  fun s =>
    Ok _ tt (mkSession (nodes s) (ports s) (connections s) sel (warnings s)).

(** Whether an edge [src -> dst] is in the connection graph. *)
Definition connected (s : MockedSession) (src dst : MockedPort) : bool :=
  existsb (connects (Some src) (Some dst)) (connections s).

(** The session with the edge [src -> dst] recorded. *)
Definition with_connection (s : MockedSession) (src dst : MockedPort) : MockedSession :=
  mkSession (nodes s) (ports s)
            (connections s ++ [mkConnection (Some src) (Some dst)])
            (selection s) (warnings s).

(** The session after a warning went to the sink. *)
Definition warned (s : MockedSession) (msg : message) : MockedSession :=
  mkSession (nodes s) (ports s) (connections s) (selection s) (warnings s ++ [msg]).

(** The nodes of the session whose name is among [names], in the order of
    the store. *)
Definition named_nodes (names : list str) (s : MockedSession) : list MockedNode :=
  filter (fun node => name_in (node_name node) names) (nodes s).

End Model.

Arguments Ok {_ A} a s.
Arguments Raise {_ A} e s.

(** The session methods the adaptor calls whose behaviour does not bear on
    what is proved here; they are parameters. [resolve_port] and
    [resolve_node] read the node and port stores only. *)
Class Core `{PyValue} : Type := {
  resolve_port : list MockedNode -> list MockedPort -> str -> option MockedPort;
  resolve_node : list MockedNode -> str -> option MockedNode;
  create_port :
    option MockedNode -> option str -> option str -> option str -> value ->
    option str -> M MockedPort
}.

Section Lookups.
Context `{Core}.

(** [get_port_by_match(dagpath)]: a port, or [None]. *)
Definition get_port_by_match (dagpath : str) : M port_ref :=
  fun s => Ok (resolve_port (nodes s) (ports s) dagpath) s.

(** [get_node_by_match(pattern)]: a node, or [None]. *)
Definition get_node_by_match (pattern : str) : M (option MockedNode) :=
  fun s => Ok (resolve_node (nodes s) pattern) s.

End Lookups.

End Session.

Notation "x <- m ;; k" := (Session.bind m (fun x => k))
  (at level 61, m at next level, right associativity).

(** ** cmds/session.py, the revision under [src/src]

    The decorators [handle_arguments] and [redirect_method_args_to_arg]
    translate the short flag names and gather positional arguments before
    a method body runs; the methods are modelled from their bodies, with
    the long flag names. *)

Module Cmds.
Import Session.

Section MockedCmdsSession.
Context `{Core}.

Definition warning (msg : message) : M unit := Session.warning msg.

Definition _conform_connection_ports (src dst : str) : M (MockedPort * MockedPort) :=
  port_src <- get_port_by_match src ;;
  match port_src with
  | None => raise (RuntimeError (MsgSourceNotFound src))
  | Some port_src =>
      port_dst <- get_port_by_match dst ;;
      match port_dst with
      | None => raise (RuntimeError (MsgDestinationNotFound dst))
      | Some port_dst => ret (port_src, port_dst)
      end
  end.

(** The loop [for object_ in objects] of [addAttr]. *)
Fixpoint addAttr_objects (objects : list str) (name port_type shortName : option str)
         (defaultValue : value) (niceName : option str) : M unit :=
  match objects with
  | [] => ret tt
  | object_ :: rest =>
      node <- get_node_by_match object_ ;;
      _ <- create_port node name port_type shortName defaultValue niceName ;;
      addAttr_objects rest name port_type shortName defaultValue niceName
  end.

Definition addAttr (objects : list str) (attributeType dataType : option str)
           (defaultValue : value) (longName niceName shortName : option str) : M unit :=
  if negb (truthy longName) && negb (truthy shortName)
  then raise (RuntimeError MsgNeedsName)
  else
    let name := or_else longName shortName in
    let port_type := or_else (or_else attributeType dataType) (Some (s2l "float")) in
    addAttr_objects objects name port_type shortName defaultValue niceName.

(** [if connection:] holds whenever a connection object was found. *)
Definition connectAttr (src dst : str) : M unit :=
  conformed <- _conform_connection_ports src dst ;;
  let '(src, dst) := conformed in
  connection <- get_connection_by_ports (Some src) (Some dst) ;;
  match connection with
  | Some _ =>
      _ <- warning (MsgAlreadyConnected src dst) ;;
      raise (RuntimeError MsgMayaCommandError)
  | None =>
      _ <- create_connection (Some src) (Some dst) ;;
      ret tt
  end.

Definition disconnectAttr (src dst : str) : M unit :=
  conformed <- _conform_connection_ports src dst ;;
  let '(src, dst) := conformed in
  connection <- get_connection_by_ports (Some src) (Some dst) ;;
  match connection with
  | None => raise (RuntimeError (MsgNoConnection src dst))
  | Some connection => remove_connection connection
  end.

Definition select (names : list str) : M unit :=
  all <- gets nodes ;;
  set_selection (filter (fun node => name_in (node_name node) names) all).

End MockedCmdsSession.
End Cmds.

(** ** cmds/session.py, the revision under [src/python] *)

Module CmdsPython.
Import Session.

Section MockedCmdsSession.
Context `{Core}.

(** The loop [for object in objects] of [addAttr]; the port type and the
    nice name are left to the defaults of [create_port]. *)
Fixpoint addAttr_objects (objects : list str) (name name_short : option str)
         (default : value) : M unit :=
  match objects with
  | [] => ret tt
  | object :: rest =>
      node <- get_node_by_match object ;;
      _ <- create_port node name None name_short default None ;;
      addAttr_objects rest name name_short default
  end.

(** [addAttr] takes its objects positionally and its flags as keywords;
    the keywords it reads are [longName], [shortName] and [defaultValue]. *)
Definition addAttr (objects : list str) (longName shortName : option str)
           (defaultValue : value) : M unit :=
  let name_long := longName in
  let name_short := shortName in
  if negb (truthy name_long) && negb (truthy name_short)
  then raise (RuntimeError MsgNeedsName)
  else
    let default := defaultValue in
    let name := if truthy name_long then name_long else name_short in
    addAttr_objects objects name name_short default.

(** The loop [for connection in self.session.connections] of
    [connectAttr]. *)
Fixpoint connectAttr_scan (conns : list MockedConnection) (port_src port_dst : port_ref)
  : M unit :=
  match conns with
  | [] => ret tt
  | connection :: rest =>
      if same_port (conn_src connection) port_src
         && same_port (conn_dst connection) port_dst
      then raise (RuntimeError MsgMayaCommandError)
      else connectAttr_scan rest port_src port_dst
  end.

Definition connectAttr (src dst : str) : M unit :=
  port_src <- get_port_by_match src ;;
  port_dst <- get_port_by_match dst ;;
  conns <- gets connections ;;
  _ <- connectAttr_scan conns port_src port_dst ;;
  _ <- create_connection port_src port_dst ;;
  ret tt.

(** The message of the error is built from [port_src.__melobject__()] and
    [port_dst.__melobject__()], which fail on [None]. *)
Definition disconnectAttr (src dst : str) : M unit :=
  port_src <- get_port_by_match src ;;
  port_dst <- get_port_by_match dst ;;
  connection <- get_connection_by_ports port_src port_dst ;;
  match connection with
  | None =>
      match port_src, port_dst with
      | Some p, Some q => raise (RuntimeError (MsgNoConnection p q))
      | _, _ => raise AttributeError
      end
  | Some connection => remove_connection connection
  end.

Definition select (names : list str) : M unit :=
  all <- gets nodes ;;
  let _find_node (node : str) : list MockedNode :=
    filter (fun n => name_in (node_name n) names) all in
  set_selection (flat_map _find_node names).

End MockedCmdsSession.
End CmdsPython.

(** ** A concrete session, for instances of the statements *)

Definition nat_values : PyValue := {| value := nat; float_zero := 0 |}.

Definition example_port (id owner : nat) (name : str) : @Session.MockedPort nat_values :=
  @Session.mkPort nat_values id owner name None (s2l "float") 0 true None.

(** A core that resolves an address by the exact name of a node or of a
    port, and adds ports without any check. *)
Definition example_core : @Session.Core nat_values := {|
  Session.resolve_port := fun _ ports dagpath =>
    find (fun p => str_eqb (Session.port_name p) dagpath) ports;
  Session.resolve_node := fun nodes pattern =>
    find (fun n => str_eqb (Session.node_name n) pattern) nodes;
  Session.create_port := fun node name port_type short_name v nice_name s =>
    let p := @Session.mkPort nat_values (length (Session.ports s))
               (match node with Some n => Session.node_id n | None => 0 end)
               (match name with Some x => x | None => [] end)
               short_name
               (match port_type with Some x => x | None => s2l "float" end)
               v true nice_name in
    Session.Ok p (Session.mkSession (Session.nodes s) (Session.ports s ++ [p])
                    (Session.connections s) (Session.selection s)
                    (Session.warnings s))
|}.

Definition example_port_a : @Session.MockedPort nat_values :=
  example_port 0 0 (s2l "a.tx").

Definition example_port_b : @Session.MockedPort nat_values :=
  example_port 1 1 (s2l "b.tx").

Definition example_node_a : Session.MockedNode :=
  Session.mkNode 0 (s2l "a") (s2l "transform") None.

Definition example_node_b : Session.MockedNode :=
  Session.mkNode 1 (s2l "b") (s2l "transform") None.

Definition example_session : @Session.MockedSession nat_values :=
  @Session.mkSession nat_values [example_node_a; example_node_b]
    [example_port_a; example_port_b] [] [] [].

(** ** Further notions for the naming helpers *)

(** The number of decimal digits a name begins with. *)
Fixpoint leading_digits (name : str) : nat :=
  match name with
  | c :: rest => if is_digit c then S (leading_digits rest) else 0
  | [] => 0
  end.

(** [denotes p s]: the pattern [p] denotes the text [s] in the words of
    the specification: a wildcard stands for one or more word characters,
    every other character for itself. *)
Inductive denotes : str -> str -> Prop :=
| denotes_nil : denotes [] []
| denotes_wild (p : str) (c : ascii) (w s : str) :
    is_word c = true -> forallb is_word w = true -> denotes p s ->
    denotes ("*"%char :: p) (c :: w ++ s)
| denotes_char (c : ascii) (p s : str) :
    c <> "*"%char -> denotes p s -> denotes (c :: p) (c :: s).

(** A character of ASCII text. On such text the class [\w] of [re] is
    [is_word] whatever the version of Python; beyond it the class also
    takes in the letters and digits of other scripts. *)
Definition is_ascii (c : ascii) : bool := nat_of_ascii c <? 128.

(** A character of a pattern that stays within one segment: a word
    character or the wildcard. *)
Definition is_segment_char (c : ascii) : bool := is_word c || Ascii.eqb c "*".

(** ** More of the session and of the adaptor *)

Module SessionRest.
Import Session.

Section Model.
Context `{PyValue}.

(** The session without the edges [src -> dst]. *)
Definition without_connection (s : MockedSession) (src dst : port_ref) : MockedSession :=
  mkSession (nodes s) (ports s)
            (filter (fun c => negb (connects src dst c)) (connections s))
            (selection s) (warnings s).

(** The session with the edge [src -> dst] recorded, for ends that may
    be [None]. *)
Definition with_edge (s : MockedSession) (src dst : port_ref) : MockedSession :=
  mkSession (nodes s) (ports s) (connections s ++ [mkConnection src dst])
            (selection s) (warnings s).

(** Modelled from the spec: [get_port_input_connections(port)] of the
    session, "all connections where port is the destination". *)
Definition get_port_input_connections (port : port_ref) (s : MockedSession)
  : list MockedConnection :=
  filter (fun c => same_port (conn_dst c) port) (connections s).

(** Modelled from the spec: [get_port_output_connections(port)] of the
    session, "all connections where port is the source". *)
Definition get_port_output_connections (port : port_ref) (s : MockedSession)
  : list MockedConnection :=
  filter (fun c => same_port (conn_src c) port) (connections s).

(** What a method that only reads the session raises. *)
Inductive query_error : Type :=
| QRuntimeError (text : str)
| QValueError (text : str)
| QAttributeError.

(** What [connectionInfo] returns: a plug name, a list of plug names, or
    [None]. *)
Inductive info : Type :=
| Plug (name : str)
| Plugs (names : list str)
| NoInfo.

(** The assignment [port.value = value]: the port is one object, shared by
    the port store and by the connections it is an end of. *)
Definition assign_value (target : MockedPort) (v : value) (p : MockedPort) : MockedPort :=
  if port_id p =? port_id target
  then mkPort (port_id p) (port_owner p) (port_name p) (port_short_name p)
              (port_type p) v (port_user_defined p) (port_nice_name p)
  else p.

Definition assign_value_in_connection (target : MockedPort) (v : value)
           (c : MockedConnection) : MockedConnection :=
  mkConnection (option_map (assign_value target v) (conn_src c))
               (option_map (assign_value target v) (conn_dst c)).

Definition with_value (s : MockedSession) (target : MockedPort) (v : value)
  : MockedSession :=
  mkSession (nodes s) (map (assign_value target v) (ports s))
            (map (assign_value_in_connection target v) (connections s))
            (selection s) (warnings s).

End Model.

(** Methods of the node and port objects and of the session that the rest
    of the adaptor calls; they are parameters. *)
Class Objects `{PyValue} : Type := {
  port_melobject : MockedSession -> MockedPort -> str;
  node_melobject : MockedSession -> MockedNode -> str;
  create_node : str -> option str -> option MockedNode -> M MockedNode
}.

End SessionRest.

(** *** cmds/session.py under [src/src], further methods *)

Module CmdsRest.
Import Session SessionRest.

Section MockedCmdsSession.
Context `{Core} `{!Objects}.

(** [parent] is looked up only when it is given and not empty. *)
Definition createNode (type_ : str) (name parent : option str) (skipSelect : bool)
  : M str :=
  parent <- (if truthy parent
             then get_node_by_match (match parent with Some p => p | None => [] end)
             else ret None) ;;
  node <- create_node type_ name parent ;;
  name <- gets (fun s => node_melobject s node) ;;
  _ <- (if negb skipSelect then Cmds.select [name] else ret tt) ;;
  ret name.

(** The list [[connection.dst.__melobject__() for connection in ...]]. *)
Fixpoint melobjects (s : MockedSession) (refs : list port_ref) : query_error + list str :=
  match refs with
  | [] => inr []
  | None :: _ => inl QAttributeError
  | Some p :: rest =>
      match melobjects s rest with
      | inr names => inr (port_melobject s p :: names)
      | inl e => inl e
      end
  end.

(** [next(generator, "")] over the input connections: the source of the
    first one, or the empty string. *)
Definition first_source (s : MockedSession) (inputs : list MockedConnection)
  : query_error + info :=
  match inputs with
  | [] => inr (Plug [])
  | connection :: _ =>
      match conn_src connection with
      | Some p => inr (Plug (port_melobject s p))
      | None => inl QAttributeError
      end
  end.

Definition destinations (s : MockedSession) (outputs : list MockedConnection)
  : query_error + info :=
  match melobjects s (map conn_dst outputs) with
  | inr names => inr (Plugs names)
  | inl e => inl e
  end.

Definition connectionInfo (dagpath : str) (sourceFromDestination destinationFromSource : bool)
           (s : MockedSession) : query_error + info :=
  let port := resolve_port (nodes s) (ports s) dagpath in
  if sourceFromDestination && negb destinationFromSource
  then first_source s (get_port_input_connections port s)
  else if destinationFromSource && negb sourceFromDestination
  then destinations s (get_port_output_connections port s)
  else if sourceFromDestination && destinationFromSource
  then inl (QRuntimeError (s2l "You cannot specify more than one flag."))
  else inl (QRuntimeError (s2l "You must specify exactly one flag.")).

Definition getAttr (dagpath : str) (s : MockedSession) : query_error + value :=
  match resolve_port (nodes s) (ports s) dagpath with
  | None => inl (QValueError (s2l "No object matches name: " ++ dagpath))
  | Some port => inr (port_value port)
  end.

(** [port.value = value] fails on [None]. *)
Definition setAttr (dagpath : str) (v : value) : M unit :=
  port <- get_port_by_match dagpath ;;
  match port with
  | None => raise AttributeError
  | Some port => fun s => Ok tt (with_value s port v)
  end.

End MockedCmdsSession.
End CmdsRest.

(** *** cmds/session.py under [src/python], further methods *)

Module CmdsPythonRest.
Import Session SessionRest.

Section MockedCmdsSession.
Context `{Core} `{!Objects}.

(** [shared] is not read. *)
Definition createNode (_type : str) (name parent : option str)
           (shared : option bool) (skipSelect : bool) : M str :=
  parent <- (if truthy parent
             then get_node_by_match (match parent with Some p => p | None => [] end)
             else ret None) ;;
  node <- create_node _type name parent ;;
  name <- gets (fun s => node_melobject s node) ;;
  _ <- (if negb skipSelect then CmdsPython.select [name] else ret tt) ;;
  ret name.

Definition connectionInfo (dagpath : str) (sourceFromDestination destinationFromSource : bool)
           (s : MockedSession) : query_error + info :=
  let port := resolve_port (nodes s) (ports s) dagpath in
  if sourceFromDestination
  then CmdsRest.first_source s (get_port_input_connections port s)
  else if destinationFromSource
  then CmdsRest.destinations s (get_port_output_connections port s)
  else inr NoInfo.

(** [port.value] fails on [None]. *)
Definition getAttr (dagpath : str) (s : MockedSession) : query_error + value :=
  match resolve_port (nodes s) (ports s) dagpath with
  | None => inl QAttributeError
  | Some port => inr (port_value port)
  end.

Definition setAttr (dagpath : str) (v : value) : M unit :=
  port <- get_port_by_match dagpath ;;
  match port with
  | None => raise AttributeError
  | Some port => fun s => Ok tt (with_value s port v)
  end.

End MockedCmdsSession.
End CmdsPythonRest.

(** A concrete choice of the object methods, for instances. *)
Definition example_objects : @SessionRest.Objects nat_values := {|
  SessionRest.port_melobject := fun _ p => Session.port_name p;
  SessionRest.node_melobject := fun _ n => Session.node_name n;
  SessionRest.create_node := fun type_ name parent s =>
    let n := Session.mkNode (length (Session.nodes s))
               (match name with Some x => x | None => type_ end) type_
               (option_map Session.node_id parent) in
    Session.Ok n (@Session.mkSession nat_values (Session.nodes s ++ [n])
                    (Session.ports s) (Session.connections s)
                    (Session.selection s) (Session.warnings s))
|}.

(** * Proofs *)

Example ex_regex_name : pattern_to_regex (Some (s2l "name")) = s2l "(^|.*\|)name$".
Proof. reflexivity. Qed.


(** ** Reading the compiled expression *)

Lemma replace_app (old : ascii) (new a b : str) :
  replace old new (a ++ b) = replace old new a ++ replace old new b.
Proof.
  induction a as [|c a IH]; simpl; [reflexivity|].
  now rewrite IH, app_assoc.
Qed.

(** After the separator has been escaped a pattern never starts with it,
    whatever the pattern was. *)
Lemma escaped_never_startswith_separator (p : str) :
  startswith (s2l "|") (replace "|" (s2l "\|") p) = false.
Proof.
  destruct p as [|c t]; [reflexivity|].
  cbn [replace].
  destruct (Ascii.eqb_spec c "|") as [->|Hc]; [reflexivity|].
  change (Ascii.eqb "|" c && true = false).
  destruct (Ascii.eqb_spec "|" c) as [E|_]; [now subst|reflexivity].
Qed.

Lemma pattern_to_regex_text (p : str) :
  pattern_to_regex (Some p) =
  s2l "(^|.*\|)" ++ replace "|" (s2l "\|") (replace "*" (s2l "[\w]*") p) ++ s2l "$".
Proof.
  unfold pattern_to_regex.
  rewrite escaped_never_startswith_separator.
  now rewrite <- app_assoc.
Qed.

Lemma lex_literal_char (c : ascii) (t : str) :
  is_literal_char c = true ->
  Re.lex None (c :: t) = option_map (cons (Re.TAtom (Re.Lit c))) (Re.lex None t).
Proof.
  intros H.
  destruct c as [[] [] [] [] [] [] [] []];
    (discriminate H || reflexivity).
Qed.

Example name_chars_are_literal :
  forallb is_literal_char
    (s2l "abcdefghijklmnopqrstuvwxyzABCDEFGHIJKLMNOPQRSTUVWXYZ0123456789_:") = true.
Proof. reflexivity. Qed.

Lemma option_map_app {A : Type} (a b : list A) (o : option (list A)) :
  option_map (app a) (option_map (app b) o) = option_map (app (a ++ b)) o.
Proof. destruct o; simpl; [now rewrite app_assoc|reflexivity]. Qed.

Lemma lex_pattern (p rest : str) :
  forallb is_pattern_char p = true ->
  Re.lex None (replace "|" (s2l "\|") (replace "*" (s2l "[\w]*") p) ++ rest) =
  option_map (app (flat_map pattern_tokens p)) (Re.lex None rest).
Proof.
  induction p as [|c p IH]; intros Hp.
  - simpl. now destruct (Re.lex None rest).
  - simpl in Hp. apply andb_prop in Hp as [Hc Hp]. specialize (IH Hp).
    cbn [replace flat_map].
    rewrite replace_app, <- app_assoc, <- option_map_app.
    rewrite <- IH. clear IH Hp.
    set (tl := replace "|" (s2l "\|") (replace "*" (s2l "[\w]*") p) ++ rest).
    unfold pattern_tokens.
    destruct (Ascii.eqb_spec c "*") as [->|Hstar].
    + cbn. now destruct (Re.lex None tl).
    + simpl replace. rewrite app_nil_r.
      destruct (Ascii.eqb_spec c "|") as [->|Hbar].
      * cbn. now destruct (Re.lex None tl).
      * unfold is_pattern_char in Hc.
        apply Bool.orb_true_iff in Hc as [Hc|Hc];
          [|apply Ascii.eqb_eq in Hc; contradiction].
        apply Bool.orb_true_iff in Hc as [Hc|Hc];
          [|apply Ascii.eqb_eq in Hc; contradiction].
        cbn [app]. rewrite (lex_literal_char c tl Hc).
        now destruct (Re.lex None tl).
Qed.

Lemma lex_anywhere (t : str) :
  Re.lex None (s2l "(^|.*\|)" ++ t) =
  option_map
    (app [Re.TOpen; Re.TAtom Re.Bol; Re.TBar; Re.TAtom Re.Dot; Re.TStar;
          Re.TAtom (Re.Lit "|"); Re.TClose])
    (Re.lex None t).
Proof. cbn. now destruct (Re.lex None t). Qed.

Lemma parse_pattern (p : str) (ts : list Re.token) (cur : Re.frame)
      (stack : list (bool * Re.frame)) :
  Re.parse (flat_map pattern_tokens p ++ ts) cur stack =
  Re.parse ts
    (Re.mkFrame (Re.f_alts cur) (rev (map pattern_atom p) ++ Re.f_seq cur)) stack.
Proof.
  revert cur. induction p as [|c p IH]; intros cur.
  - now destruct cur.
  - cbn [flat_map map rev]. rewrite <- !app_assoc.
    unfold pattern_tokens at 1, pattern_atom at 2.
    destruct (Ascii.eqb c "*"); cbn; now rewrite IH.
Qed.

(** What [re.compile] makes of the expression of a pattern. *)
Lemma compile_pattern (p : str) :
  forallb is_pattern_char p = true ->
  Re.compile (pattern_to_regex (Some p)) =
  Some (Re.seq_of (anywhere :: map pattern_atom p ++ [Re.Eol])).
Proof.
  intros Hp. unfold Re.compile.
  rewrite pattern_to_regex_text, lex_anywhere, (lex_pattern p _ Hp).
  change (Re.lex None (s2l "$")) with (Some [Re.TAtom Re.Eol]).
  cbn [option_map app].
  cbn [Re.parse Re.f_seq Re.f_alts Re.empty_frame Re.push_atom Re.repeatable].
  rewrite parse_pattern. simpl.
  unfold Re.close_frame. simpl.
  rewrite rev_app_distr, rev_involutive.
  reflexivity.
Qed.

(** ** Running the compiled expression *)

Lemma flag_after_app (b : bool) (w m : str) :
  flag_after (flag_after b w) m = flag_after b (w ++ m).
Proof. destruct w, m; reflexivity. Qed.

Lemma pos_eq (q : Re.pos) (b : bool) (s : str) :
  fst q = b -> snd q = s -> (b, s) = q.
Proof. destruct q; simpl; intros; subst; reflexivity. Qed.

Lemma in_run_seq_cons (a : Re.regex) (l : list Re.regex) (p q : Re.pos) :
  In q (Re.run (Re.seq_of (a :: l)) p) <->
  exists m, In m (Re.run a p) /\ In q (Re.run (Re.seq_of l) m).
Proof.
  destruct l as [|a' l].
  - simpl. split.
    + intros H. exists q. split; [assumption|now left].
    + intros (m & Hm & [<-|[]]). assumption.
  - change (Re.seq_of (a :: a' :: l)) with (Re.Cat a (Re.seq_of (a' :: l))).
    cbn [Re.run]. rewrite in_flat_map. reflexivity.
Qed.

Lemma in_eat (f : ascii -> bool) (b : bool) (s : str) (q : Re.pos) :
  In q (Re.eat f (b, s)) <-> exists c, s = c :: snd q /\ f c = true /\ fst q = false.
Proof.
  unfold Re.eat. cbn [snd]. destruct s as [|c t].
  - split; [intros []|intros (c & H & _); discriminate].
  - destruct (f c) eqn:Hfc.
    + split.
      * intros [<-|[]]. exists c. auto.
      * intros (c' & Hs & _ & Hq). injection Hs as <- Hs. left.
        now apply pos_eq.
    + split; [intros []|].
      intros (c' & Hs & Hc' & _). injection Hs as <- _. congruence.
Qed.

(** A starred one-character atom consumes a run of characters it accepts. *)
Lemma in_star_eat (f : ascii -> bool) (n : nat) (b : bool) (s : str) (q : Re.pos) :
  length s <= n ->
  In q (Re.star_loop (Re.eat f) n (b, s)) <->
  exists w, s = w ++ snd q /\ forallb f w = true /\ fst q = flag_after b w.
Proof.
  revert b s. induction n as [|n IH]; intros b s Hn.
  - destruct s; [|simpl in Hn; lia]. simpl. split.
    + intros [<-|[]]. exists []. auto.
    + intros (w & Hs & _ & Hf). symmetry in Hs.
      apply app_eq_nil in Hs as [-> Hs]. left. now apply pos_eq.
  - cbn [Re.star_loop]. rewrite in_app_iff, in_flat_map. split.
    + intros [(m & Hm & Hq)|[<-|[]]]; [|exists []; auto].
      apply in_eat in Hm as (c & Hs & Hc & Hm).
      destruct m as [bm sm]. cbn [fst snd] in Hs, Hm, Hq. subst s bm.
      assert (E : (length sm <? length (c :: sm)) = true)
        by (apply Nat.ltb_lt; simpl; lia).
      rewrite E in Hq.
      apply IH in Hq as (w & Hs & Hw & Hq); [|simpl in Hn |- *; lia].
      exists (c :: w). simpl. rewrite Hc, Hw, <- Hs.
      repeat split. rewrite Hq. now destruct w.
    + intros (w & Hs & Hw & Hq). destruct w as [|c w].
      * right. left. now apply pos_eq.
      * left. simpl in Hw. apply andb_prop in Hw as [Hc Hw].
        exists (false, w ++ snd q). split.
        -- apply in_eat. exists c. auto.
        -- cbn [snd]. rewrite Hs.
           assert (E : (length (w ++ snd q) <? length ((c :: w) ++ snd q)) = true)
             by (apply Nat.ltb_lt; simpl; lia).
           rewrite E.
           apply IH; [subst s; simpl in Hn; lia|].
           exists w. repeat split; [assumption|]. rewrite Hq. now destruct w.
Qed.

Lemma forallb_word_class (w : str) :
  forallb (Re.class_matches [Re.IWord]) w = forallb is_word w.
Proof.
  induction w as [|c w IH]; [reflexivity|]. simpl. rewrite IH.
  now rewrite Bool.orb_false_r.
Qed.

(** The atoms of a pattern consume exactly the texts the pattern denotes. *)
Lemma in_run_atoms (p : str) (tail : list Re.regex) (b : bool) (s : str) (q : Re.pos) :
  In q (Re.run (Re.seq_of (map pattern_atom p ++ tail)) (b, s)) <->
  exists m rest, s = m ++ rest /\ glob p m /\
                 In q (Re.run (Re.seq_of tail) (flag_after b m, rest)).
Proof.
  revert b s. induction p as [|c p IH]; intros b s.
  - cbn [map app]. split.
    + intros H. exists [], s. repeat split; [constructor|assumption].
    + intros (m & rest & -> & Hg & H). inversion Hg; subst. assumption.
  - cbn [map app]. rewrite in_run_seq_cons. unfold pattern_atom at 1.
    destruct (Ascii.eqb_spec c "*") as [->|Hc].
    + cbn [Re.run snd]. split.
      * intros ([bm sm] & Hm & Hq).
        apply in_star_eat in Hm as (w & Hs & Hw & Hb); [|lia].
        cbn [fst snd] in Hs, Hb. subst bm.
        apply IH in Hq as (m & rest & -> & Hg & Hq).
        exists (w ++ m), rest. rewrite <- app_assoc. split; [assumption|].
        rewrite forallb_word_class in Hw.
        split; [now constructor|]. now rewrite <- flag_after_app.
      * intros (m & rest & -> & Hg & Hq). inversion Hg as [|p' w m' Hw Hg' E1 E2|]; subst.
        -- exists (flag_after b w, m' ++ rest). split.
           ++ apply in_star_eat; [lia|]. exists w. cbn [fst snd].
              rewrite forallb_word_class, <- app_assoc. auto.
           ++ apply IH. exists m', rest. rewrite flag_after_app. auto.
        -- congruence.
    + cbn [Re.run]. split.
      * intros ([bm sm] & Hm & Hq).
        apply in_eat in Hm as (x & Hs & Hx & Hb). cbn [fst snd] in Hs, Hb.
        apply Ascii.eqb_eq in Hx. subst x bm.
        apply IH in Hq as (m & rest & -> & Hg & Hq).
        exists (c :: m), rest. split; [assumption|].
        split; [now constructor|]. now destruct m.
      * intros (m & rest & -> & Hg & Hq).
        inversion Hg as [| |c' p' m' _ Hg' E1 E2]; subst; [congruence|].
        exists (false, m' ++ rest). split.
        -- apply in_eat. exists c. cbn [fst snd]. rewrite Ascii.eqb_refl. auto.
        -- apply IH. exists m', rest. repeat split; [assumption|].
           now destruct m'.
Qed.

Lemma in_run_anywhere (s : str) (q : Re.pos) :
  In q (Re.run anywhere (true, s)) <->
  q = (true, s) \/
  exists pre, s = pre ++ "|"%char :: snd q /\ forallb not_newline pre = true /\
              fst q = false.
Proof.
  unfold anywhere. cbn [Re.run fst snd]. rewrite in_app_iff, in_flat_map. split.
  - intros [[<-|[]]|([bm sm] & Hm & Hq)]; [now left|]. right.
    apply in_star_eat in Hm as (w & Hs & Hw & _); [|lia].
    apply in_eat in Hq as (c & Hc & Hx & Hf).
    apply Ascii.eqb_eq in Hx. subst c. cbn [snd] in Hs, Hc.
    exists w. subst. auto.
  - intros [->|(pre & Hs & Hpre & Hf)]; [left; now left|]. right.
    exists (flag_after true pre, "|"%char :: snd q). split.
    + apply in_star_eat; [lia|]. exists pre. auto.
    + apply in_eat. exists "|"%char. rewrite Ascii.eqb_refl. auto.
Qed.

Lemma in_run_eol (b : bool) (rest : str) (q : Re.pos) :
  In q (Re.run Re.Eol (b, rest)) <->
  q = (b, rest) /\ (rest = [] \/ rest = [newline]).
Proof.
  cbn [Re.run snd]. destruct rest as [|c [|d rest]].
  - split; [intros [<-|[]]; auto|intros [-> _]; now left].
  - destruct (Ascii.eqb_spec c newline) as [->|Hc].
    + split; [intros [<-|[]]; auto|intros [-> _]; now left].
    + split; [intros []|intros [_ [H|H]]; [discriminate|congruence]].
  - split; [intros []|intros [_ [H|H]]; discriminate].
Qed.

Lemma matches_iff (r : Re.regex) (s : str) :
  Re.matches r s = true <-> exists q, In q (Re.run r (true, s)).
Proof.
  unfold Re.matches. destruct (Re.run r (true, s)) as [|q l].
  - split; [discriminate|intros (q & [])].
  - split; [exists q; now left|reflexivity].
Qed.

(** The matcher of a pattern, on any path: the pattern denotes a stretch of the path that begins at a segment start
    and runs to the end of the path, or to a line break that ends it. *)
Lemma path_matches_spans (p path : str) :
  forallb is_pattern_char p = true ->
  path_matches (Some p) path = Some true <->
  exists before m tl,
    path = before ++ m ++ tl /\ (tl = [] \/ tl = [newline]) /\
    reachable_start before /\ glob p m.
Proof.
  intros Hp. unfold path_matches. rewrite (compile_pattern p Hp).
  split.
  - intros H. injection H as H. apply matches_iff in H as (q & Hq).
    apply in_run_seq_cons in Hq as (m & Hm & Hq).
    destruct m as [bm sm].
    apply in_run_atoms in Hq as (mm & rest & Hs & Hg & Hq).
    change (Re.seq_of [Re.Eol]) with Re.Eol in Hq.
    apply in_run_eol in Hq as [_ Hrest].
    apply in_run_anywhere in Hm as [Hm|(pre & Hpath & Hpre & _)].
    + injection Hm as -> ->. exists [], mm, rest. repeat split; auto. now left.
    + cbn [snd] in Hpath. exists (pre ++ ["|"%char]), mm, rest.
      rewrite <- app_assoc. cbn [app]. rewrite <- Hs.
      repeat split; auto. right. exists pre. auto.
  - intros (before & m & tl & Hpath & Htl & Hstart & Hg).
    f_equal. apply matches_iff.
    assert (Hend : forall b, In (b, tl) (Re.run Re.Eol (b, tl)))
      by (intros b; apply in_run_eol; auto).
    destruct Hstart as [->|(pre & -> & Hpre)].
    + exists (flag_after true m, tl). apply in_run_seq_cons.
      exists (true, path). split; [apply in_run_anywhere; now left|].
      apply in_run_atoms. exists m, tl. auto.
    + exists (flag_after false m, tl). apply in_run_seq_cons.
      exists (false, m ++ tl). split.
      * apply in_run_anywhere. right. exists pre. cbn [fst snd].
        rewrite Hpath, <- app_assoc. auto.
      * apply in_run_atoms. exists m, tl. auto.
Qed.

(** ** conform_node_name *)

Lemma regex_invalid_node_name_chars_compiled :
  Re.compile REGEX_INVALID_NODE_NAME_CHARS_text = Some _REGEX_INVALID_NODE_NAME_CHARS
  /\ _REGEX_INVALID_NODE_NAME_CHARS =
     Re.Or (Re.Cat Re.Bol (Re.Group (Re.Class [Re.IRange "0" "9"])))
           (Re.NotAhead lookahead_text).
Proof. split; reflexivity. Qed.

Lemma run_invalid_node_name_chars (b : bool) (s : str) :
  Re.run _REGEX_INVALID_NODE_NAME_CHARS (b, s) =
  (if b then Re.eat (Re.class_matches [Re.IRange "0" "9"]) (b, s) else [])
  ++ match Re.run lookahead_text (b, s) with [] => [(b, s)] | _ :: _ => [] end.
Proof.
  change _REGEX_INVALID_NODE_NAME_CHARS with
    (Re.Or (Re.Cat Re.Bol (Re.Group (Re.Class [Re.IRange "0" "9"])))
           (Re.NotAhead lookahead_text)).
  cbn [Re.run fst]. destruct b; cbn [flat_map]; [|reflexivity].
  now rewrite app_nil_r.
Qed.

(** Past the first character the expression finds nothing but empty
    matches, so the substitution copies the text. *)
Lemma sub_loop_invalid_later (s : str) :
  Re.sub_loop _REGEX_INVALID_NODE_NAME_CHARS [] false 0 s = s.
Proof.
  induction s as [|c t IH].
  - cbn [Re.sub_loop]. now destruct (Re.run _ _).
  - cbn [Re.sub_loop]. rewrite run_invalid_node_name_chars. cbn [app].
    destruct (Re.run lookahead_text _).
    + rewrite Nat.sub_diag. cbn [app]. now rewrite IH.
    + now rewrite IH.
Qed.

Lemma conform_node_name_eq (name : str) :
  conform_node_name name =
  match name with
  | c :: rest => if is_digit c then rest else name
  | [] => []
  end.
Proof.
  unfold conform_node_name, Re.sub. destruct name as [|c t].
  - cbn [Re.sub_loop]. now destruct (Re.run _ _).
  - cbn [Re.sub_loop]. rewrite run_invalid_node_name_chars.
    unfold Re.eat. cbn [snd Re.class_matches existsb Re.item_matches].
    rewrite Bool.orb_false_r. fold (is_digit c).
    destruct (is_digit c).
    + cbn [app]. replace (length (c :: t) - length t) with 1 by (cbn [length]; lia).
      cbn [app]. apply sub_loop_invalid_later.
    + cbn [app]. destruct (Re.run lookahead_text _).
      * rewrite Nat.sub_diag. cbn [app]. now rewrite sub_loop_invalid_later.
      * now rewrite sub_loop_invalid_later.
Qed.

(** C9: [conform_node_name] removes one leading digit when there is one
    and changes nothing else: a name with separators or semicolons comes
    back as it was, and a name that starts with two digits still starts
    with a digit. *)
Theorem conform_node_name_strips_one_leading_digit :
  (forall name : str,
      conform_node_name name =
      match name with
      | c :: rest => if is_digit c then rest else name
      | [] => []
      end)
  /\ conform_node_name (s2l "a|b") = s2l "a|b"
  /\ conform_node_name (s2l "a;b") = s2l "a;b"
  /\ (forall (d1 d2 : ascii) (rest : str),
         conform_node_name (d1 :: d2 :: rest) =
         if is_digit d1 then d2 :: rest else d1 :: d2 :: rest)
  /\ conform_node_name (s2l "12ab") = s2l "2ab".
Proof.
  split; [exact conform_node_name_eq|].
  repeat split; try reflexivity.
  intros d1 d2 rest. exact (conform_node_name_eq (d1 :: d2 :: rest)).
Qed.

(** ** The claims on patterns *)

Lemma star_loop_ends_with_start (step : Re.pos -> list Re.pos) (n : nat) (p : Re.pos) :
  exists l, Re.star_loop step n p = l ++ [p].
Proof.
  destruct n as [|n]; [now exists []|].
  cbn [Re.star_loop]. eexists. reflexivity.
Qed.

(** Without a pattern every path matches. *)
Lemma no_pattern_matches_every_path (path : str) :
  path_matches None path = Some true.
Proof.
  unfold path_matches.
  change (Re.compile (pattern_to_regex None)) with (Some (Re.Star Re.Dot)).
  f_equal. unfold Re.matches.
  change (Re.run (Re.Star Re.Dot) (true, path))
    with (Re.star_loop (Re.run Re.Dot) (length path) (true, path)).
  destruct (star_loop_ends_with_start (Re.run Re.Dot) (length path) (true, path))
    as (l & ->).
  now destruct l.
Qed.

Example join_examples :
  join (s2l "|a") (s2l "b") = s2l "|a|b"
  /\ join (s2l "a|") (s2l "|b") = s2l "a|b".
Proof. split; reflexivity. Qed.

Lemma no_newline_app (a b : str) :
  no_newline (a ++ b) = true <-> no_newline a = true /\ no_newline b = true.
Proof. unfold no_newline. rewrite forallb_app. apply Bool.andb_true_iff. Qed.

Lemma startswith_separator (p : str) :
  startswith (s2l "|") p = true -> exists p', p = "|"%char :: p'.
Proof.
  destruct p as [|c p]; [discriminate|].
  change (Ascii.eqb "|" c && true = true -> exists p', c :: p = "|"%char :: p').
  rewrite Bool.andb_true_r. intros E. apply Ascii.eqb_eq in E. subst c.
  now exists p.
Qed.

(** A match never stops at an inner separator, and never starts inside a
    segment. *)
Example relative_pattern_examples :
  path_matches (Some (s2l "a")) (s2l "a|b") = Some false
  /\ path_matches (Some (s2l "b")) (s2l "a|b") = Some true
  /\ path_matches (Some (s2l "a|b")) (s2l "|x|a|b") = Some true
  /\ path_matches (Some (s2l "b")) (s2l "a|bb") = Some false
  /\ path_matches (Some (s2l "b")) (s2l "a|xb") = Some false.
Proof. repeat split; reflexivity. Qed.

(** The end-of-text anchor of [re] also holds before a line break that
    ends the subject. *)
Example dollar_before_final_newline :
  path_matches (Some (s2l "a")) (s2l "a" ++ [newline]) = Some true.
Proof. reflexivity. Qed.

(** C1: the wildcard is compiled to a starred word class, which also
    accepts no character at all: the pattern "name*" matches the path
    "name". *)
Theorem wildcard_matches_empty_run :
  pattern_to_regex (Some (s2l "name*")) = s2l "(^|.*\|)name[\w]*$"
  /\ path_matches (Some (s2l "name*")) (s2l "name") = Some true.
Proof. split; reflexivity. Qed.

(** What does hold of the wildcard: it stands for word characters only,
    so it never reaches over a separator. *)
Lemma wildcard_stays_in_segment (p path : str) :
  forallb is_pattern_char ("*"%char :: p) = true ->
  no_newline path = true ->
  path_matches (Some ("*"%char :: p)) path = Some true ->
  exists before run rest : str,
    path = before ++ run ++ rest /\ segment_start before
    /\ forallb is_word run = true /\ glob p rest.
Proof.
  intros Hp Hnl Hm.
  apply path_matches_spans in Hm as (before & m & tl & Hpath & Htl & Hstart & Hg);
    [|assumption].
  inversion Hg as [|p' run m' Hrun Hg' E1 E2|c p' m' Hc _ E1 E2]; subst;
    [|congruence].
  destruct Htl as [-> | ->].
  - exists before, run, m'. rewrite app_nil_r.
    repeat split; try assumption.
    destruct Hstart as [->|(b' & -> & _)]; [now left|right; now exists b'].
  - apply no_newline_app in Hnl as [_ Hnl].
    apply no_newline_app in Hnl as [_ Hnl]. discriminate Hnl.
Qed.

(** C4: the test for a leading separator comes after the separators have
    been escaped, so it never holds and every pattern gets the prefix of
    a relative one. The pattern "|a" then matches "x||a" and "|x||a",
    paths on which it does not match at the start. The two paths of the
    claim behave as it says. *)
Theorem absolute_pattern_is_not_anchored :
  (forall p : str,
      pattern_to_regex (Some p) =
      s2l "(^|.*\|)" ++ replace "|" (s2l "\|") (replace "*" (s2l "[\w]*") p) ++ s2l "$")
  /\ pattern_to_regex (Some (s2l "|a")) = s2l "(^|.*\|)\|a$"
  /\ path_matches (Some (s2l "|a")) (s2l "x||a") = Some true
  /\ path_matches (Some (s2l "|a")) (s2l "|x||a") = Some true
  /\ path_matches (Some (s2l "|a|b")) (s2l "|a|b") = Some true
  /\ path_matches (Some (s2l "|a|b")) (s2l "|x|a|b") = Some false.
Proof.
  split; [exact pattern_to_regex_text|]. repeat split; reflexivity.
Qed.

(** On a path without an empty segment the dead branch does not show: an
    absolute pattern matches it only from its start. *)
Lemma absolute_pattern_without_empty_segment (p path : str) :
  forallb is_pattern_char p = true ->
  startswith (s2l "|") p = true ->
  no_newline path = true ->
  (forall a b : str, path <> a ++ "|"%char :: "|"%char :: b) ->
  path_matches (Some p) path = Some true <-> glob p path.
Proof.
  intros Hp Habs Hnl Hseg. rewrite (path_matches_spans p path Hp). split.
  - intros (before & m & tl & Hpath & Htl & Hstart & Hg).
    destruct Htl as [-> | ->].
    + rewrite app_nil_r in Hpath.
      destruct Hstart as [->|(b' & -> & _)]; [now subst|].
      apply startswith_separator in Habs as (p' & ->).
      inversion Hg as [| |c p0 m' _ _ E1 E2]; subst.
      exfalso. apply (Hseg b' m'). now rewrite <- app_assoc.
    + subst path. apply no_newline_app in Hnl as [_ Hnl].
      apply no_newline_app in Hnl as [_ Hnl]. discriminate Hnl.
  - intros Hg. exists [], path, []. rewrite app_nil_r.
    repeat split; [now left|now left|assumption].
Qed.

(** ** is_valid_node_name *)

Lemma str_eqb_eq (a b : str) : str_eqb a b = true <-> a = b.
Proof.
  revert b. induction a as [|x a IH]; destruct b as [|y b]; simpl;
    try (split; [discriminate|discriminate]); [split; reflexivity|].
  rewrite Bool.andb_true_iff, Ascii.eqb_eq, IH.
  split; [intros [-> ->]; reflexivity|intros E; injection E; auto].
Qed.

(** C2: the check looks at emptiness and at the blacklist only, so a name
    that starts with a digit and is not blacklisted is accepted. *)
Theorem is_valid_node_name_accepts_leading_digit
        (BLACKLISTED_NODE_NAMES : list str) (d : ascii) (rest : str) :
  is_digit d = true ->
  ~ In (d :: rest) BLACKLISTED_NODE_NAMES ->
  is_valid_node_name BLACKLISTED_NODE_NAMES (d :: rest) = true.
Proof.
  intros _ Hout. unfold is_valid_node_name, name_in.
  destruct (existsb (str_eqb (d :: rest)) BLACKLISTED_NODE_NAMES) eqn:E;
    [|reflexivity].
  apply existsb_exists in E as (x & Hx & E). apply str_eqb_eq in E.
  subst x. contradiction.
Qed.

Lemma is_valid_node_name_accepts_leading_digit_witness :
  is_digit "1" = true
  /\ ~ In (s2l "1abc") [s2l "world"]
  /\ is_valid_node_name [s2l "world"] (s2l "1abc") = true.
Proof.
  assert (Hout : ~ In (s2l "1abc") [s2l "world"])
    by (intros [E|[]]; discriminate E).
  split; [reflexivity|]. split; [exact Hout|].
  exact (is_valid_node_name_accepts_leading_digit [s2l "world"] "1" (s2l "abc")
           eq_refl Hout).
Defined.

(** ** The session adaptor *)

Section SessionFacts.
Import Session.
Context `{Core}.

Lemma find_existsb_false {A : Type} (f : A -> bool) (l : list A) :
  existsb f l = false -> find f l = None.
Proof.
  induction l as [|x l IH]; simpl; [reflexivity|].
  destruct (f x); [discriminate|exact IH].
Qed.

Lemma find_existsb_true {A : Type} (f : A -> bool) (l : list A) :
  existsb f l = true -> exists x, find f l = Some x.
Proof.
  induction l as [|x l IH]; simpl; [discriminate|].
  destruct (f x); [intros _; now exists x|exact IH].
Qed.

Lemma same_port_refl (p : MockedPort) : same_port (Some p) (Some p) = true.
Proof. apply Nat.eqb_refl. Qed.

Lemma connected_with_connection (s : MockedSession) (p q : MockedPort) :
  connected (with_connection s p q) p q = true.
Proof.
  unfold connected, with_connection. cbn [connections].
  rewrite existsb_app. cbn. unfold connects. cbn.
  now rewrite !Nat.eqb_refl, Bool.orb_true_r.
Qed.

Lemma conform_connection_ports_resolved (s : MockedSession) (src dst : str)
      (p q : MockedPort) :
  resolve_port (nodes s) (ports s) src = Some p ->
  resolve_port (nodes s) (ports s) dst = Some q ->
  Cmds._conform_connection_ports src dst s = Ok (p, q) s.
Proof.
  intros Hp Hq. unfold Cmds._conform_connection_ports, bind, get_port_by_match.
  rewrite Hp. cbn. now rewrite Hq.
Qed.

Lemma cmds_connectAttr_eq (s : MockedSession) (src dst : str) (p q : MockedPort) :
  resolve_port (nodes s) (ports s) src = Some p ->
  resolve_port (nodes s) (ports s) dst = Some q ->
  Cmds.connectAttr src dst s =
  if connected s p q
  then Raise (RuntimeError MsgMayaCommandError) (warned s (MsgAlreadyConnected p q))
  else Ok tt (with_connection s p q).
Proof.
  intros Hp Hq. unfold Cmds.connectAttr, bind at 1.
  rewrite (conform_connection_ports_resolved s src dst p q Hp Hq).
  unfold bind, get_connection_by_ports, connected.
  destruct (existsb (connects (Some p) (Some q)) (connections s)) eqn:E.
  - apply find_existsb_true in E as (c & ->). reflexivity.
  - rewrite (find_existsb_false _ _ E). unfold create_connection.
    now rewrite E.
Qed.

Lemma connectAttr_scan_eq (conns : list MockedConnection) (a b : port_ref)
      (s : MockedSession) :
  CmdsPython.connectAttr_scan conns a b s =
  if existsb (connects a b) conns
  then Raise (RuntimeError MsgMayaCommandError) s
  else Ok tt s.
Proof.
  induction conns as [|c conns IH]; [reflexivity|].
  cbn [CmdsPython.connectAttr_scan existsb]. unfold connects at 1.
  destruct (same_port (conn_src c) a && same_port (conn_dst c) b);
    [reflexivity|exact IH].
Qed.

Lemma python_connectAttr_eq (s : MockedSession) (src dst : str) (p q : MockedPort) :
  resolve_port (nodes s) (ports s) src = Some p ->
  resolve_port (nodes s) (ports s) dst = Some q ->
  CmdsPython.connectAttr src dst s =
  if connected s p q
  then Raise (RuntimeError MsgMayaCommandError) s
  else Ok tt (with_connection s p q).
Proof.
  intros Hp Hq. unfold CmdsPython.connectAttr, bind, get_port_by_match, gets.
  rewrite Hp, Hq, connectAttr_scan_eq. unfold connected.
  destruct (existsb (connects (Some p) (Some q)) (connections s)) eqn:E;
    [reflexivity|].
  unfold create_connection. now rewrite E.
Qed.

(** C5: on a pair of ports that is already connected [connectAttr] raises
    its duplicate error and the edges stay as they were; on a pair that
    is not, it returns and the edge is recorded, so that a second call on
    the pair raises. Both revisions of the adaptor. *)
Theorem connectAttr_rejects_duplicate (s : MockedSession) (src dst : str)
        (p q : MockedPort) :
  resolve_port (nodes s) (ports s) src = Some p ->
  resolve_port (nodes s) (ports s) dst = Some q ->
  Cmds.connectAttr src dst s =
    (if connected s p q
     then Raise (RuntimeError MsgMayaCommandError) (warned s (MsgAlreadyConnected p q))
     else Ok tt (with_connection s p q))
  /\ CmdsPython.connectAttr src dst s =
    (if connected s p q
     then Raise (RuntimeError MsgMayaCommandError) s
     else Ok tt (with_connection s p q))
  /\ connections (warned s (MsgAlreadyConnected p q)) = connections s
  /\ connections (with_connection s p q)
     = connections s ++ [mkConnection (Some p) (Some q)]
  /\ connected (with_connection s p q) p q = true
  /\ (exists s', (_ <- Cmds.connectAttr src dst ;; Cmds.connectAttr src dst) s
                 = Raise (RuntimeError MsgMayaCommandError) s'
                 /\ connections s'
                    = if connected s p q then connections s
                      else connections s ++ [mkConnection (Some p) (Some q)])
  /\ (exists s', (_ <- CmdsPython.connectAttr src dst ;;
                  CmdsPython.connectAttr src dst) s
                 = Raise (RuntimeError MsgMayaCommandError) s'
                 /\ connections s'
                    = if connected s p q then connections s
                      else connections s ++ [mkConnection (Some p) (Some q)]).
Proof.
  intros Hp Hq.
  pose proof (connected_with_connection s p q) as Hc.
  split; [now apply cmds_connectAttr_eq|].
  split; [now apply python_connectAttr_eq|].
  repeat split; try assumption.
  - unfold bind at 1. rewrite (cmds_connectAttr_eq s src dst p q Hp Hq).
    destruct (connected s p q) eqn:E.
    + eexists. split; reflexivity.
    + rewrite (cmds_connectAttr_eq (with_connection s p q) src dst p q Hp Hq), Hc.
      eexists. split; reflexivity.
  - unfold bind at 1. rewrite (python_connectAttr_eq s src dst p q Hp Hq).
    destruct (connected s p q) eqn:E.
    + eexists. split; reflexivity.
    + rewrite (python_connectAttr_eq (with_connection s p q) src dst p q Hp Hq), Hc.
      eexists. split; reflexivity.
Qed.

(** C6: on a pair of ports with no connection between them
    [disconnectAttr] raises its missing-connection error and leaves the
    session, its connections among the rest, as it was. Both revisions. *)
Theorem disconnectAttr_missing_connection (s : MockedSession) (src dst : str)
        (p q : MockedPort) :
  resolve_port (nodes s) (ports s) src = Some p ->
  resolve_port (nodes s) (ports s) dst = Some q ->
  connected s p q = false ->
  Cmds.disconnectAttr src dst s = Raise (RuntimeError (MsgNoConnection p q)) s
  /\ CmdsPython.disconnectAttr src dst s = Raise (RuntimeError (MsgNoConnection p q)) s.
Proof.
  intros Hp Hq E. unfold connected in E. split.
  - unfold Cmds.disconnectAttr, bind at 1.
    rewrite (conform_connection_ports_resolved s src dst p q Hp Hq).
    unfold bind, get_connection_by_ports.
    now rewrite (find_existsb_false _ _ E).
  - unfold CmdsPython.disconnectAttr, bind, get_port_by_match, get_connection_by_ports.
    rewrite Hp, Hq. now rewrite (find_existsb_false _ _ E).
Qed.

(** C7: [addAttr] without a long and without a short name raises before
    it looks at any object: the session, its ports among the rest, is
    unchanged. Both revisions. *)
Theorem addAttr_requires_a_name (s : MockedSession) (objects : list str)
        (attributeType dataType longName niceName shortName : option str)
        (defaultValue : value) :
  truthy longName = false ->
  truthy shortName = false ->
  Cmds.addAttr objects attributeType dataType defaultValue longName niceName shortName s
    = Raise (RuntimeError MsgNeedsName) s
  /\ CmdsPython.addAttr objects longName shortName defaultValue s
    = Raise (RuntimeError MsgNeedsName) s.
Proof.
  intros Hl Hs. unfold Cmds.addAttr, CmdsPython.addAttr.
  rewrite Hl, Hs. split; reflexivity.
Qed.

End SessionFacts.

Section SelectFacts.
Import Session.
Context `{PyValue}.

Lemma name_in_iff (name : str) (names : list str) :
  name_in name names = true <-> In name names.
Proof.
  unfold name_in. rewrite existsb_exists. split.
  - intros (x & Hx & E). apply str_eqb_eq in E. now subst.
  - intros Hin. exists name. split; [assumption|now apply str_eqb_eq].
Qed.

Lemma cmds_select_eq (names : list str) (s : MockedSession) :
  Cmds.select names s =
  Ok tt (mkSession (nodes s) (ports s) (connections s) (named_nodes names s)
                   (warnings s)).
Proof. reflexivity. Qed.

Lemma python_select_eq (names : list str) (s : MockedSession) :
  CmdsPython.select names s =
  Ok tt (mkSession (nodes s) (ports s) (connections s)
                   (flat_map (fun _ => named_nodes names s) names) (warnings s)).
Proof. reflexivity. Qed.

(** The older revision selects every named node once for each entry of
    [names]. *)
Lemma python_select_repeats (names : list str) (s : MockedSession) :
  selection (session_of (CmdsPython.select names s)) =
  concat (repeat (selection (session_of (Cmds.select names s))) (length names)).
Proof.
  rewrite python_select_eq, cmds_select_eq. cbn [session_of selection].
  generalize (named_nodes names s) as sel. intros sel.
  induction names as [|n names IH]; [reflexivity|].
  cbn [flat_map length repeat concat]. now rewrite IH.
Qed.

(** C8: after [select(names)] the selection holds the stored nodes whose
    name is in [names] and no others, whatever was selected before; in
    the revision under [src/src] it is exactly those nodes in store
    order. *)
Theorem select_replaces_selection (s : MockedSession) (names : list str) :
  selection (session_of (Cmds.select names s))
    = filter (fun node => name_in (node_name node) names) (nodes s)
  /\ (forall n : MockedNode,
        In n (selection (session_of (Cmds.select names s))) <->
        In n (nodes s) /\ In (node_name n) names)
  /\ (forall n : MockedNode,
        In n (selection (session_of (CmdsPython.select names s))) <->
        In n (nodes s) /\ In (node_name n) names)
  /\ (forall before : list MockedNode,
        let s0 := mkSession (nodes s) (ports s) (connections s) before (warnings s) in
        selection (session_of (Cmds.select names s0))
          = selection (session_of (Cmds.select names s))
        /\ selection (session_of (CmdsPython.select names s0))
          = selection (session_of (CmdsPython.select names s))).
Proof.
  split; [reflexivity|].
  assert (Hsrc : forall n : MockedNode,
             In n (named_nodes names s) <-> In n (nodes s) /\ In (node_name n) names).
  { intros n. unfold named_nodes. rewrite filter_In, name_in_iff. reflexivity. }
  split; [exact Hsrc|].
  split; [|intros before; split; reflexivity].
  intros n. rewrite python_select_eq. cbn [session_of selection].
  rewrite in_flat_map. split.
  - intros (x & _ & Hn). now apply Hsrc.
  - intros Hn. pose proof Hn as [_ Hname].
    exists (node_name n). split; [assumption|now apply Hsrc].
Qed.

End SelectFacts.

(** C10: the two revisions of [select] differ. With nodes [a] and [b] in
    the store, [select(["a", "b"])] selects [a; b] in the revision under
    [src/src] and [a; b; a; b] in the one under [src/python]. *)
Theorem select_revisions_differ :
  let a := example_node_a in
  let b := example_node_b in
  let s := @Session.mkSession nat_values [a; b] [] [] [] [] in
  let names := [s2l "a"; s2l "b"] in
  Session.selection (Session.session_of (Cmds.select names s)) = [a; b]
  /\ Session.selection (Session.session_of (CmdsPython.select names s)) = [a; b; a; b]
  /\ Session.selection (Session.session_of (Cmds.select names s))
     <> Session.selection (Session.session_of (CmdsPython.select names s)).
Proof.
  cbv zeta. split; [reflexivity|]. split; [reflexivity|].
  intros E. apply (f_equal (@length _)) in E. discriminate E.
Qed.

(** *** Instances of the statements above *)

Lemma connectAttr_rejects_duplicate_witness :
  let s := example_session in
  @Session.resolve_port nat_values example_core (Session.nodes s) (Session.ports s)
    (s2l "a.tx") = Some example_port_a
  /\ @Session.resolve_port nat_values example_core (Session.nodes s) (Session.ports s)
       (s2l "b.tx") = Some example_port_b
  /\ @Cmds.connectAttr nat_values example_core (s2l "a.tx") (s2l "b.tx") s
     = Session.Ok tt (Session.with_connection s example_port_a example_port_b).
Proof.
  cbv zeta.
  split; [reflexivity|]. split; [reflexivity|].
  exact (proj1 (@connectAttr_rejects_duplicate nat_values example_core
                  example_session (s2l "a.tx") (s2l "b.tx")
                  example_port_a example_port_b eq_refl eq_refl)).
Defined.

Lemma disconnectAttr_missing_connection_witness :
  Session.connected example_session example_port_a example_port_b = false
  /\ @Cmds.disconnectAttr nat_values example_core (s2l "a.tx") (s2l "b.tx")
       example_session
     = Session.Raise
         (Session.RuntimeError (Session.MsgNoConnection example_port_a example_port_b))
         example_session.
Proof.
  split; [reflexivity|].
  exact (proj1 (@disconnectAttr_missing_connection nat_values example_core
                  example_session (s2l "a.tx") (s2l "b.tx")
                  example_port_a example_port_b eq_refl eq_refl eq_refl)).
Defined.

Lemma addAttr_requires_a_name_witness :
  truthy None = false /\ truthy (Some []) = false
  /\ @Cmds.addAttr nat_values example_core [s2l "a"] None None 0 None None (Some [])
       example_session
     = Session.Raise (Session.RuntimeError Session.MsgNeedsName) example_session.
Proof.
  split; [reflexivity|]. split; [reflexivity|].
  exact (proj1 (@addAttr_requires_a_name nat_values example_core example_session
                  [s2l "a"] None None None None (Some []) 0 eq_refl eq_refl)).
Defined.

(** * Further properties *)

(** ** Patterns *)

Lemma glob_without_wildcard (p s : str) :
  ascii_in "*" p = false -> glob p s <-> s = p.
Proof.
  revert s. induction p as [|c p IH]; intros s Hp.
  - split; [intros Hg; now inversion Hg|intros ->; constructor].
  - cbn [ascii_in existsb] in Hp. apply Bool.orb_false_iff in Hp as [Hc Hp].
    assert (Hne : c <> "*"%char).
    { intros ->. discriminate Hc. }
    split.
    + intros Hg. inversion Hg as [| |c' p' s' _ Hg' E1 E2]; subst; [congruence|].
      f_equal. now apply IH.
    + intros ->. constructor; [assumption|]. now apply IH.
Qed.

(** On a path without a line break a match is a suffix that begins at a
    segment start, for relative and absolute patterns alike. *)
Lemma pattern_matches_suffix (p path : str) :
  forallb is_pattern_char p = true ->
  no_newline path = true ->
  path_matches (Some p) path = Some true <->
  exists before suffix : str,
    path = before ++ suffix /\ segment_start before /\ glob p suffix.
Proof.
  intros Hp Hnl. rewrite (path_matches_spans p path Hp). split.
  - intros (before & m & tl & Hpath & Htl & Hstart & Hg).
    destruct Htl as [-> | ->].
    + rewrite app_nil_r in Hpath. exists before, m.
      repeat split; [assumption| |assumption].
      destruct Hstart as [->|(b' & -> & _)]; [now left|right; now exists b'].
    + subst path. apply no_newline_app in Hnl as [_ Hnl].
      apply no_newline_app in Hnl as [_ Hnl]. discriminate Hnl.
  - intros (before & suffix & Hpath & Hstart & Hg).
    exists before, suffix, []. rewrite app_nil_r.
    repeat split; [assumption|now left| |assumption].
    destruct Hstart as [->|(b' & ->)]; [now left|].
    right. exists b'. split; [reflexivity|].
    subst path. apply no_newline_app in Hnl as [Hnl _].
    now apply no_newline_app in Hnl as [Hnl _].
Qed.

Lemma literal_pattern_iff (p path : str) :
  forallb is_pattern_char p = true ->
  ascii_in "*" p = false ->
  no_newline path = true ->
  path_matches (Some p) path = Some true <->
  path = p \/ exists before : str, path = before ++ "|"%char :: p.
Proof.
  intros Hp Hw Hnl. rewrite (path_matches_spans p path Hp). split.
  - intros (before & m & tl & Hpath & Htl & Hstart & Hg).
    apply (glob_without_wildcard p m Hw) in Hg. subst m.
    destruct Htl as [-> | ->].
    + rewrite app_nil_r in Hpath.
      destruct Hstart as [->|(b' & -> & _)]; [now left|].
      right. exists b'. now rewrite Hpath, <- app_assoc.
    + subst path. apply no_newline_app in Hnl as [_ Hnl].
      apply no_newline_app in Hnl as [_ Hnl]. discriminate Hnl.
  - intros [->|(before & ->)].
    + exists [], p, []. rewrite app_nil_r.
      repeat split; [now left|now left|now apply glob_without_wildcard].
    + exists (before ++ ["|"%char]), p, []. rewrite app_nil_r, <- app_assoc.
      repeat split; [now left| |now apply glob_without_wildcard].
      right. exists before. split; [reflexivity|].
      now apply no_newline_app in Hnl as [Hnl _].
Qed.

(** A pattern without a wildcard matches the paths that are the pattern
    itself or end with a separator followed by the pattern, and no other
    path; whether the pattern begins with a separator makes no
    difference. Paths hold no line break. *)
Theorem literal_pattern_matches (p path : str) :
  forallb is_pattern_char p = true ->
  ascii_in "*" p = false ->
  no_newline path = true ->
  path_matches (Some p) path = Some true <->
  path = p \/ exists before : str, path = before ++ "|"%char :: p.
Proof. exact (literal_pattern_iff p path). Qed.

Lemma literal_pattern_matches_witness :
  forallb is_pattern_char (s2l "group1|locator1") = true
  /\ ascii_in "*" (s2l "group1|locator1") = false
  /\ no_newline (s2l "|group1|locator1") = true
  /\ (path_matches (Some (s2l "group1|locator1")) (s2l "|group1|locator1") = Some true <->
      s2l "|group1|locator1" = s2l "group1|locator1"
      \/ exists before : str,
           s2l "|group1|locator1" = before ++ "|"%char :: s2l "group1|locator1").
Proof.
  split; [reflexivity|]. split; [reflexivity|]. split; [reflexivity|].
  exact (literal_pattern_matches (s2l "group1|locator1") (s2l "|group1|locator1")
           eq_refl eq_refl eq_refl).
Defined.

(** The empty pattern matches the empty path and every path that ends
    with a separator, and nothing else. *)
Theorem empty_pattern_matches (path : str) :
  no_newline path = true ->
  path_matches (Some []) path = Some true <->
  path = [] \/ exists before : str, path = before ++ ["|"%char].
Proof.
  intros Hnl. exact (literal_pattern_iff [] path eq_refl eq_refl Hnl).
Qed.

Lemma empty_pattern_matches_witness :
  no_newline (s2l "|group1|") = true
  /\ (path_matches (Some []) (s2l "|group1|") = Some true <->
      s2l "|group1|" = [] \/ exists before : str, s2l "|group1|" = before ++ ["|"%char]).
Proof.
  split; [reflexivity|].
  exact (empty_pattern_matches (s2l "|group1|") eq_refl).
Defined.

Lemma word_char_is_literal (c : ascii) : is_word c = true -> is_literal_char c = true.
Proof.
  intros H.
  destruct c as [[] [] [] [] [] [] [] []]; (discriminate H || reflexivity).
Qed.

Lemma segment_chars_are_pattern_chars (p : str) :
  forallb is_segment_char p = true -> forallb is_pattern_char p = true.
Proof.
  induction p as [|c p IH]; [reflexivity|]. cbn [forallb].
  intros H. apply andb_prop in H as [Hc Hp]. rewrite (IH Hp), Bool.andb_true_r.
  unfold is_segment_char in Hc. unfold is_pattern_char.
  apply Bool.orb_true_iff in Hc as [Hc|Hc].
  - now rewrite (word_char_is_literal c Hc).
  - rewrite Hc. now rewrite Bool.orb_true_r.
Qed.

Lemma glob_segment_is_word (p s : str) :
  forallb is_segment_char p = true -> glob p s -> forallb is_word s = true.
Proof.
  intros Hp Hg. induction Hg as [|p w s Hw Hg IH|c p s Hc Hg IH].
  - reflexivity.
  - cbn [forallb] in Hp. apply andb_prop in Hp as [_ Hp].
    rewrite forallb_app, Hw. now apply IH.
  - cbn [forallb] in Hp. apply andb_prop in Hp as [Hcw Hp].
    cbn [forallb]. rewrite (IH Hp), Bool.andb_true_r.
    unfold is_segment_char in Hcw. apply Bool.orb_true_iff in Hcw as [H|H];
      [assumption|]. apply Ascii.eqb_eq in H. contradiction.
Qed.

(** A pattern of word characters and wildcards matches inside the last
    segment only: the text its atoms consume begins at a segment start,
    runs to the end of the path and consists of word characters, so it
    holds no separator. Paths are ASCII text without line break. *)
Theorem segment_pattern_matches_last_segment (p path : str) :
  forallb is_segment_char p = true ->
  forallb is_ascii path = true ->
  no_newline path = true ->
  path_matches (Some p) path = Some true <->
  exists before segment : str,
    path = before ++ segment /\ segment_start before
    /\ forallb is_word segment = true /\ glob p segment.
Proof.
  intros Hp _ Hnl.
  rewrite (pattern_matches_suffix p path (segment_chars_are_pattern_chars p Hp) Hnl).
  split.
  - intros (before & suffix & Hpath & Hstart & Hg).
    exists before, suffix. repeat split; try assumption.
    exact (glob_segment_is_word p suffix Hp Hg).
  - intros (before & segment & Hpath & Hstart & _ & Hg).
    now exists before, segment.
Qed.

Lemma segment_pattern_matches_last_segment_witness :
  forallb is_segment_char (s2l "loc*") = true
  /\ forallb is_ascii (s2l "|group1|locator1") = true
  /\ no_newline (s2l "|group1|locator1") = true
  /\ (path_matches (Some (s2l "loc*")) (s2l "|group1|locator1") = Some true <->
      exists before segment : str,
        s2l "|group1|locator1" = before ++ segment /\ segment_start before
        /\ forallb is_word segment = true /\ glob (s2l "loc*") segment).
Proof.
  split; [reflexivity|]. split; [reflexivity|]. split; [reflexivity|].
  exact (segment_pattern_matches_last_segment (s2l "loc*") (s2l "|group1|locator1")
           eq_refl eq_refl eq_refl).
Defined.

(** What a pattern of wildcards, separators and literal characters
    matches on any path of ASCII text, line breaks included: a stretch of
    the path that the atoms of the pattern consume, that begins at the
    start of the path or after a separator with no line break before it,
    and that runs to the end of the path or to a line break that ends
    the path. *)
Theorem pattern_matches_on_any_path (p path : str) :
  forallb is_pattern_char p = true ->
  forallb is_ascii path = true ->
  path_matches (Some p) path = Some true <->
  exists before m tl : str,
    path = before ++ m ++ tl /\ (tl = [] \/ tl = [newline])
    /\ reachable_start before /\ glob p m.
Proof. intros Hp _. exact (path_matches_spans p path Hp). Qed.

Lemma pattern_matches_on_any_path_witness :
  forallb is_pattern_char (s2l "a*") = true
  /\ forallb is_ascii (s2l "|x|ab" ++ [newline]) = true
  /\ (path_matches (Some (s2l "a*")) (s2l "|x|ab" ++ [newline]) = Some true <->
      exists before m tl : str,
        s2l "|x|ab" ++ [newline] = before ++ m ++ tl
        /\ (tl = [] \/ tl = [newline])
        /\ reachable_start before /\ glob (s2l "a*") m).
Proof.
  split; [reflexivity|]. split; [reflexivity|].
  exact (pattern_matches_on_any_path (s2l "a*") (s2l "|x|ab" ++ [newline])
           eq_refl eq_refl).
Defined.

(** A pattern of wildcards, separators and literal characters that
    begins with the separator is as good as anchored on the paths a
    hierarchy gives: on a path of ASCII text without line break and
    without an empty segment it matches only when its atoms consume the
    whole path. *)
Theorem absolute_pattern_anchored_on_plain_paths (p path : str) :
  forallb is_pattern_char p = true ->
  startswith (s2l "|") p = true ->
  forallb is_ascii path = true ->
  no_newline path = true ->
  (forall a b : str, path <> a ++ "|"%char :: "|"%char :: b) ->
  path_matches (Some p) path = Some true <-> glob p path.
Proof.
  intros Hp Habs _ Hnl Hseg.
  exact (absolute_pattern_without_empty_segment p path Hp Habs Hnl Hseg).
Qed.

Lemma absolute_pattern_anchored_on_plain_paths_witness :
  forallb is_pattern_char (s2l "|a|b") = true
  /\ startswith (s2l "|") (s2l "|a|b") = true
  /\ forallb is_ascii (s2l "|a|b") = true
  /\ no_newline (s2l "|a|b") = true
  /\ (forall a b : str, s2l "|a|b" <> a ++ "|"%char :: "|"%char :: b)
  /\ (path_matches (Some (s2l "|a|b")) (s2l "|a|b") = Some true <->
      glob (s2l "|a|b") (s2l "|a|b")).
Proof.
  assert (Hseg : forall a b : str, s2l "|a|b" <> a ++ "|"%char :: "|"%char :: b).
  { intros a b E.
    destruct a as [|x0 [|x1 [|x2 [|x3 a]]]]; try discriminate E.
    injection E as _ _ _ _ E. destruct a; discriminate E. }
  split; [reflexivity|]. split; [reflexivity|]. split; [reflexivity|].
  split; [reflexivity|]. split; [exact Hseg|].
  exact (absolute_pattern_anchored_on_plain_paths (s2l "|a|b") (s2l "|a|b")
           eq_refl eq_refl eq_refl eq_refl Hseg).
Defined.

(** ** join *)

Lemma lstrip_all (c : ascii) (s : str) :
  forallb (fun x => Ascii.eqb x c) s = true -> lstrip c s = [].
Proof.
  induction s as [|x s IH]; [reflexivity|]. cbn [forallb lstrip].
  intros H. apply andb_prop in H as [Hx Hs]. rewrite Hx. now apply IH.
Qed.

Lemma lstrip_none (c : ascii) (s : str) :
  forallb (fun x => negb (Ascii.eqb x c)) s = true -> lstrip c s = s.
Proof.
  destruct s as [|x s]; [reflexivity|]. cbn [forallb lstrip].
  intros H. apply andb_prop in H as [Hx _].
  now destruct (Ascii.eqb x c).
Qed.

Lemma lstrip_incl (c : ascii) (s : str) (x : ascii) : In x (lstrip c s) -> In x s.
Proof.
  induction s as [|y s IH]; [intros []|]. cbn [lstrip].
  destruct (Ascii.eqb y c); [intros H; right; now apply IH|trivial].
Qed.

Lemma strip_incl (c : ascii) (s : str) (x : ascii) : In x (strip c s) -> In x s.
Proof.
  unfold strip. intros H. apply in_rev in H. apply lstrip_incl in H.
  apply in_rev in H. now apply lstrip_incl in H.
Qed.

Lemma strip_cons (c : ascii) (s : str) : strip c (c :: s) = strip c s.
Proof. unfold strip. cbn [lstrip]. now rewrite Ascii.eqb_refl. Qed.

Lemma strip_snoc (c : ascii) (s : str) : strip c (s ++ [c]) = strip c s.
Proof.
  induction s as [|x s IH].
  - unfold strip. cbn. now rewrite Ascii.eqb_refl.
  - destruct (Ascii.eqb x c) eqn:E.
    + apply Ascii.eqb_eq in E. subst x. cbn [app]. now rewrite !strip_cons.
    + unfold strip. cbn [app lstrip]. rewrite E.
      change (x :: s ++ [c]) with ((x :: s) ++ [c]).
      rewrite rev_unit. cbn [lstrip]. now rewrite Ascii.eqb_refl.
Qed.

Lemma strip_none (c : ascii) (s : str) :
  forallb (fun x => negb (Ascii.eqb x c)) s = true -> strip c s = s.
Proof.
  intros H. unfold strip. rewrite (lstrip_none c s H).
  rewrite lstrip_none; [apply rev_involutive|].
  apply forallb_forall. intros x Hx. apply in_rev in Hx.
  revert x Hx. now apply forallb_forall.
Qed.

(** A left operand made of separators only, or empty, leaves no text
    before the joint: the result is the stripped right operand behind one
    separator when the left operand is empty and behind two otherwise. *)
Theorem join_separator_only_left (left right : str) :
  forallb (fun x => Ascii.eqb x "|") left = true ->
  join left right =
  match left with
  | [] => "|"%char :: strip "|" right
  | _ :: _ => "|"%char :: "|"%char :: strip "|" right
  end.
Proof.
  intros H. unfold join, strip at 1. rewrite (lstrip_all "|" left H).
  cbn [rev lstrip app]. destruct left as [|x left]; [reflexivity|].
  cbn [forallb] in H. apply andb_prop in H as [Hx _].
  apply Ascii.eqb_eq in Hx. subst x. reflexivity.
Qed.

Lemma join_separator_only_left_witness :
  forallb (fun x => Ascii.eqb x "|") (s2l "|") = true
  /\ join (s2l "|") (s2l "a") = s2l "||a".
Proof.
  split; [reflexivity|].
  exact (join_separator_only_left (s2l "|") (s2l "a") eq_refl).
Defined.

(** Separators at the joint do not count: one more at the end of a left
    operand that is not empty, or at either end of the right operand,
    gives the same path. *)
Theorem join_ignores_joint_separators (left right : str) :
  left <> [] ->
  join (left ++ ["|"%char]) right = join left right
  /\ join left ("|"%char :: right) = join left right
  /\ join left (right ++ ["|"%char]) = join left right.
Proof.
  intros Hne. unfold join. rewrite strip_snoc, strip_cons, strip_snoc.
  repeat split. destruct left as [|x left]; [contradiction|reflexivity].
Qed.

Lemma join_ignores_joint_separators_witness :
  s2l "|a" <> []
  /\ join (s2l "|a|") (s2l "|b|") = join (s2l "|a") (s2l "|b|").
Proof.
  assert (Hne : s2l "|a" <> []) by discriminate.
  split; [exact Hne|].
  exact (proj1 (join_ignores_joint_separators (s2l "|a") (s2l "|b|") Hne)).
Defined.

Lemma literal_char_not_special (c : ascii) :
  is_literal_char c = true ->
  Ascii.eqb c "|" = false /\ Ascii.eqb c "*" = false.
Proof.
  intros H.
  destruct c as [[] [] [] [] [] [] [] []]; (discriminate H || (split; reflexivity)).
Qed.

(** A name of literal characters is found under the path [join] builds
    for it: the pattern that is the name matches [join parent name],
    whatever the parent path, as long as the parent holds no line break. *)
Theorem joined_name_matches (parent name : str) :
  forallb is_literal_char name = true ->
  no_newline parent = true ->
  path_matches (Some name) (join parent name) = Some true.
Proof.
  intros Hname Hparent.
  assert (Hsep : forallb (fun x => negb (Ascii.eqb x "|")) name = true).
  { apply forallb_forall. intros x Hx.
    rewrite forallb_forall in Hname.
    now rewrite (proj1 (literal_char_not_special x (Hname x Hx))). }
  assert (Hstar : ascii_in "*" name = false).
  { unfold ascii_in. apply Bool.not_true_is_false. intros E.
    apply existsb_exists in E as (x & Hx & E). apply Ascii.eqb_eq in E. subst x.
    rewrite forallb_forall in Hname. specialize (Hname _ Hx). discriminate Hname. }
  assert (Hpat : forallb is_pattern_char name = true).
  { apply forallb_forall. intros x Hx. rewrite forallb_forall in Hname.
    unfold is_pattern_char. now rewrite (Hname x Hx). }
  assert (Hstrip : no_newline (strip "|" parent) = true).
  { apply forallb_forall. intros x Hx. apply strip_incl in Hx.
    unfold no_newline in Hparent. rewrite forallb_forall in Hparent. auto. }
  apply (path_matches_spans name (join parent name) Hpat).
  unfold join. rewrite (strip_none "|" name Hsep).
  destruct (startswith (s2l "|") parent).
  - exists ("|"%char :: strip "|" parent ++ ["|"%char]), name, [].
    rewrite app_nil_r. cbn [app]. rewrite <- app_assoc.
    repeat split; [now left| |now apply glob_without_wildcard].
    right. exists ("|"%char :: strip "|" parent). split; [reflexivity|].
    cbn [forallb]. unfold no_newline in Hstrip. now rewrite Hstrip.
  - exists (strip "|" parent ++ ["|"%char]), name, [].
    rewrite app_nil_r, <- app_assoc.
    repeat split; [now left| |now apply glob_without_wildcard].
    right. now exists (strip "|" parent).
Qed.

Lemma joined_name_matches_witness :
  forallb is_literal_char (s2l "locator1") = true
  /\ no_newline (s2l "|group1") = true
  /\ path_matches (Some (s2l "locator1")) (join (s2l "|group1") (s2l "locator1"))
     = Some true.
Proof.
  split; [reflexivity|]. split; [reflexivity|].
  exact (joined_name_matches (s2l "|group1") (s2l "locator1") eq_refl eq_refl).
Defined.

(** ** conform_node_name, applied again *)

Lemma conform_iter (n : nat) (name : str) :
  Nat.iter n conform_node_name name = skipn (Nat.min n (leading_digits name)) name.
Proof.
  revert name. induction n as [|n IH]; intros name; [reflexivity|].
  rewrite Nat.iter_succ_r, conform_node_name_eq.
  destruct name as [|c rest]; [rewrite IH; now rewrite !skipn_nil|].
  cbn [leading_digits]. destruct (is_digit c) eqn:E.
  - rewrite IH. reflexivity.
  - rewrite IH. cbn [leading_digits]. rewrite E.
    now rewrite !Nat.min_0_r.
Qed.

Lemma conform_fixed (name : str) :
  conform_node_name name = name <-> leading_digits name = 0.
Proof.
  rewrite conform_node_name_eq. destruct name as [|c rest]; [easy|].
  cbn [leading_digits]. destruct (is_digit c); [|easy].
  split; [|discriminate]. intros E. apply (f_equal (@length _)) in E.
  cbn [length] in E. lia.
Qed.

(** Each call removes one leading digit and no more: [n] calls remove
    the first [n] leading digits, a name is left as it is exactly when it
    begins with no digit, and a second call changes the result of the
    first exactly when the name begins with two digits or more. *)
Theorem conform_node_name_iterated :
  (forall (n : nat) (name : str),
      Nat.iter n conform_node_name name
      = skipn (Nat.min n (leading_digits name)) name)
  /\ (forall name : str, conform_node_name name = name <-> leading_digits name = 0)
  /\ (forall name : str,
         conform_node_name (conform_node_name name) = conform_node_name name
         <-> leading_digits name <= 1).
Proof.
  split; [exact conform_iter|]. split; [exact conform_fixed|].
  intros name. rewrite conform_fixed, conform_node_name_eq.
  destruct name as [|c rest]; [cbn; lia|].
  cbn [leading_digits]. destruct (is_digit c) eqn:E.
  - lia.
  - cbn [leading_digits]. rewrite E. lia.
Qed.

(** ** Connections *)

Section ConnectionFacts.
Import Session SessionRest.
Context `{Core}.

Lemma same_port_sym (a b : port_ref) : same_port a b = same_port b a.
Proof. destruct a, b; cbn; [apply Nat.eqb_sym|reflexivity|reflexivity|reflexivity]. Qed.

Lemma same_port_trans (a b c : port_ref) :
  same_port a b = true -> same_port c a = same_port c b.
Proof.
  destruct a as [a|], b as [b|]; cbn; try discriminate; [|reflexivity].
  intros E. apply Nat.eqb_eq in E. destruct c as [c|]; cbn; [|reflexivity].
  now rewrite E.
Qed.

Lemma connects_found (a b : port_ref) (c c' : MockedConnection) :
  connects a b c = true ->
  connects (conn_src c) (conn_dst c) c' = connects a b c'.
Proof.
  unfold connects. intros E. apply andb_prop in E as [Ea Eb].
  now rewrite (same_port_trans _ _ (conn_src c') Ea),
              (same_port_trans _ _ (conn_dst c') Eb).
Qed.

Lemma remove_found (a b : port_ref) (c : MockedConnection) (s : MockedSession) :
  connects a b c = true ->
  remove_connection c s = Ok tt (without_connection s a b).
Proof.
  intros E. unfold remove_connection, without_connection. do 2 f_equal.
  apply filter_ext. intros c'. now rewrite (connects_found a b c c' E).
Qed.

Lemma filter_none {A : Type} (f : A -> bool) (l : list A) :
  existsb f l = false -> filter (fun x => negb (f x)) l = l.
Proof.
  induction l as [|x l IH]; [reflexivity|]. cbn [existsb filter].
  intros E. apply Bool.orb_false_iff in E as [Ex El].
  rewrite Ex. cbn [negb]. now rewrite (IH El).
Qed.

Lemma session_eta (s : MockedSession) :
  mkSession (nodes s) (ports s) (connections s) (selection s) (warnings s) = s.
Proof. now destruct s. Qed.

Lemma without_with_edge (s : MockedSession) (a b : port_ref) :
  existsb (connects a b) (connections s) = false ->
  without_connection (with_edge s a b) a b = s.
Proof.
  intros E. unfold without_connection, with_edge. cbn [nodes ports connections selection warnings].
  rewrite filter_app, (filter_none _ _ E). cbn [filter].
  unfold connects at 1. cbn [conn_src conn_dst].
  assert (Ha : same_port a a = true) by (destruct a; cbn; [apply Nat.eqb_refl|reflexivity]).
  assert (Hb : same_port b b = true) by (destruct b; cbn; [apply Nat.eqb_refl|reflexivity]).
  rewrite Ha, Hb. cbn [andb negb]. rewrite app_nil_r. apply session_eta.
Qed.

Lemma cmds_disconnectAttr_eq (s : MockedSession) (src dst : str) (p q : MockedPort) :
  resolve_port (nodes s) (ports s) src = Some p ->
  resolve_port (nodes s) (ports s) dst = Some q ->
  Cmds.disconnectAttr src dst s =
  if connected s p q
  then Ok tt (without_connection s (Some p) (Some q))
  else Raise (RuntimeError (MsgNoConnection p q)) s.
Proof.
  intros Hp Hq. unfold Cmds.disconnectAttr, bind at 1.
  rewrite (conform_connection_ports_resolved s src dst p q Hp Hq).
  unfold bind, get_connection_by_ports, connected.
  destruct (existsb (connects (Some p) (Some q)) (connections s)) eqn:E.
  - apply find_existsb_true in E as (c & Hc). rewrite Hc.
    apply find_some in Hc as [_ Hc]. now apply remove_found.
  - now rewrite (find_existsb_false _ _ E).
Qed.

Lemma python_disconnectAttr_eq (s : MockedSession) (src dst : str) :
  CmdsPython.disconnectAttr src dst s =
  let a := resolve_port (nodes s) (ports s) src in
  let b := resolve_port (nodes s) (ports s) dst in
  if existsb (connects a b) (connections s)
  then Ok tt (without_connection s a b)
  else match a, b with
       | Some p, Some q => Raise (RuntimeError (MsgNoConnection p q)) s
       | _, _ => Raise AttributeError s
       end.
Proof.
  cbv zeta. unfold CmdsPython.disconnectAttr, bind, get_port_by_match,
    get_connection_by_ports.
  destruct (existsb _ (connections s)) eqn:E.
  - apply find_existsb_true in E as (c & Hc). rewrite Hc.
    apply find_some in Hc as [_ Hc]. now apply remove_found.
  - rewrite (find_existsb_false _ _ E).
    now destruct (resolve_port (nodes s) (ports s) src),
                 (resolve_port (nodes s) (ports s) dst).
Qed.

(** Every outcome of [connectAttr] and [disconnectAttr] under [src/src]:
    the source address is resolved first and an address without a port
    raises, the source before the destination, with the session as it
    was; on two ports the connection graph decides. *)
Theorem cmds_connection_outcomes (s : MockedSession) (src dst : str) :
  Cmds.connectAttr src dst s =
    match resolve_port (nodes s) (ports s) src, resolve_port (nodes s) (ports s) dst with
    | None, _ => Raise (RuntimeError (MsgSourceNotFound src)) s
    | Some _, None => Raise (RuntimeError (MsgDestinationNotFound dst)) s
    | Some p, Some q =>
        if connected s p q
        then Raise (RuntimeError MsgMayaCommandError)
                   (warned s (MsgAlreadyConnected p q))
        else Ok tt (with_connection s p q)
    end
  /\ Cmds.disconnectAttr src dst s =
    match resolve_port (nodes s) (ports s) src, resolve_port (nodes s) (ports s) dst with
    | None, _ => Raise (RuntimeError (MsgSourceNotFound src)) s
    | Some _, None => Raise (RuntimeError (MsgDestinationNotFound dst)) s
    | Some p, Some q =>
        if connected s p q
        then Ok tt (without_connection s (Some p) (Some q))
        else Raise (RuntimeError (MsgNoConnection p q)) s
    end.
Proof.
  destruct (resolve_port (nodes s) (ports s) src) as [p|] eqn:Hp;
    [destruct (resolve_port (nodes s) (ports s) dst) as [q|] eqn:Hq|].
  - split; [now apply cmds_connectAttr_eq|now apply cmds_disconnectAttr_eq].
  - split.
    + unfold Cmds.connectAttr, Cmds._conform_connection_ports, bind, get_port_by_match.
      now rewrite Hp, Hq.
    + unfold Cmds.disconnectAttr, Cmds._conform_connection_ports, bind,
        get_port_by_match.
      now rewrite Hp, Hq.
  - split.
    + unfold Cmds.connectAttr, Cmds._conform_connection_ports, bind, get_port_by_match.
      now rewrite Hp.
    + unfold Cmds.disconnectAttr, Cmds._conform_connection_ports, bind,
        get_port_by_match.
      now rewrite Hp.
Qed.

(** Under [src/python] [disconnectAttr] does not check that its
    addresses have a port: when one has none and the lookup of the
    session returns no connection, the call fails with an
    [AttributeError] while it builds the message of its own error, from
    [__melobject__] on [None], and the session is as it was. *)
Theorem python_disconnectAttr_without_port (s : MockedSession) (src dst : str) :
  resolve_port (nodes s) (ports s) src = None
  \/ resolve_port (nodes s) (ports s) dst = None ->
  get_connection_by_ports (resolve_port (nodes s) (ports s) src)
                          (resolve_port (nodes s) (ports s) dst) s = Ok None s ->
  CmdsPython.disconnectAttr src dst s = Raise AttributeError s.
Proof.
  intros Hnone Hlookup.
  unfold CmdsPython.disconnectAttr, bind, get_port_by_match.
  rewrite Hlookup.
  destruct Hnone as [-> | ->]; [reflexivity|].
  now destruct (resolve_port (nodes s) (ports s) src).
Qed.

(** Connecting a pair that was not connected and disconnecting it again
    gives back the session, in both revisions. *)
Theorem connect_then_disconnect_restores (s : MockedSession) (src dst : str)
        (p q : MockedPort) :
  resolve_port (nodes s) (ports s) src = Some p ->
  resolve_port (nodes s) (ports s) dst = Some q ->
  connected s p q = false ->
  (_ <- Cmds.connectAttr src dst ;; Cmds.disconnectAttr src dst) s = Ok tt s
  /\ (_ <- CmdsPython.connectAttr src dst ;; CmdsPython.disconnectAttr src dst) s
     = Ok tt s.
Proof.
  intros Hp Hq E.
  pose proof (connected_with_connection s p q) as Hc.
  pose proof (without_with_edge s (Some p) (Some q) E) as Hback.
  split.
  - unfold bind. rewrite (cmds_connectAttr_eq s src dst p q Hp Hq), E.
    rewrite (cmds_disconnectAttr_eq (with_connection s p q) src dst p q Hp Hq), Hc.
    f_equal. exact Hback.
  - unfold bind. rewrite (python_connectAttr_eq s src dst p q Hp Hq), E.
    rewrite python_disconnectAttr_eq. cbv zeta.
    cbn [with_connection nodes ports]. rewrite Hp, Hq.
    fold (with_connection s p q). fold (connected (with_connection s p q) p q).
    rewrite Hc. f_equal. exact Hback.
Qed.

(** Disconnecting a connected pair takes the edges of that pair out of
    the graph and keeps every other edge, in order; the pair is then not
    connected and a second [disconnectAttr] raises. Both revisions. *)
Theorem disconnectAttr_removes_the_edge (s : MockedSession) (src dst : str)
        (p q : MockedPort) :
  resolve_port (nodes s) (ports s) src = Some p ->
  resolve_port (nodes s) (ports s) dst = Some q ->
  connected s p q = true ->
  let s' := without_connection s (Some p) (Some q) in
  Cmds.disconnectAttr src dst s = Ok tt s'
  /\ CmdsPython.disconnectAttr src dst s = Ok tt s'
  /\ connections s'
     = filter (fun c => negb (connects (Some p) (Some q) c)) (connections s)
  /\ connected s' p q = false
  /\ Cmds.disconnectAttr src dst s' = Raise (RuntimeError (MsgNoConnection p q)) s'
  /\ CmdsPython.disconnectAttr src dst s' = Raise (RuntimeError (MsgNoConnection p q)) s'.
Proof.
  intros Hp Hq E s'.
  assert (Hgone : connected s' p q = false).
  { unfold connected, s', without_connection. cbn [connections].
    apply Bool.not_true_is_false. intros Hex.
    apply existsb_exists in Hex as (c & Hc & Hcon).
    apply filter_In in Hc as [_ Hc]. rewrite Hcon in Hc. discriminate Hc. }
  split; [rewrite (cmds_disconnectAttr_eq s src dst p q Hp Hq), E; reflexivity|].
  split.
  { rewrite python_disconnectAttr_eq. cbv zeta. rewrite Hp, Hq.
    fold (connected s p q). now rewrite E. }
  split; [reflexivity|]. split; [exact Hgone|]. split.
  - rewrite (cmds_disconnectAttr_eq s' src dst p q Hp Hq), Hgone. reflexivity.
  - rewrite python_disconnectAttr_eq. cbv zeta.
    change (nodes s') with (nodes s). change (ports s') with (ports s).
    rewrite Hp, Hq. fold (connected s' p q). now rewrite Hgone.
Qed.

End ConnectionFacts.

(** ** select, again *)

Section SelectMore.
Import Session SessionRest.
Context `{PyValue}.

Lemma length_concat_repeat {A : Type} (l : list A) (n : nat) :
  length (concat (repeat l n)) = n * length l.
Proof.
  induction n as [|n IH]; [reflexivity|].
  cbn [repeat concat]. rewrite length_app, IH. reflexivity.
Qed.

(** The two revisions of [select] leave the same selection exactly when
    [names] has one entry or no stored node is named in it. *)
Theorem select_revisions_agree_iff (s : MockedSession) (names : list str) :
  CmdsPython.select names s = Cmds.select names s
  <-> length names = 1 \/ named_nodes names s = [].
Proof.
  rewrite python_select_eq, cmds_select_eq.
  assert (Hrep : flat_map (fun _ : str => named_nodes names s) names
                 = concat (repeat (named_nodes names s) (length names))).
  { generalize (named_nodes names s). intros sel.
    induction names as [|n names IH]; [reflexivity|].
    cbn [flat_map length repeat concat]. now rewrite IH. }
  rewrite Hrep. split.
  - intros E. injection E as E. apply (f_equal (@length _)) in E.
    rewrite length_concat_repeat in E.
    destruct (named_nodes names s) as [|n sel]; [now right|left].
    cbn [length] in E. nia.
  - intros [E|E].
    + rewrite E. cbn [repeat concat]. now rewrite app_nil_r.
    + rewrite E. do 2 f_equal. clear. induction (length names); [reflexivity|assumption].
Qed.

(** Under [src/src] a store without a repeated node gives a selection
    without a repeated node, and [select] touches nothing but the
    selection. *)
Theorem select_without_duplicates (s : MockedSession) (names : list str) :
  NoDup (nodes s) ->
  let s' := session_of (Cmds.select names s) in
  NoDup (selection s')
  /\ nodes s' = nodes s /\ ports s' = ports s
  /\ connections s' = connections s /\ warnings s' = warnings s.
Proof.
  intros Hnd. cbv zeta. rewrite cmds_select_eq. cbn [session_of selection].
  split; [now apply NoDup_filter|repeat split].
Qed.

End SelectMore.

Lemma select_without_duplicates_witness :
  NoDup (Session.nodes example_session)
  /\ NoDup (Session.selection
              (Session.session_of (Cmds.select [s2l "a"] example_session))).
Proof.
  assert (Hnd : NoDup (Session.nodes example_session)).
  { repeat constructor; cbn; intuition discriminate. }
  split; [exact Hnd|].
  exact (proj1 (@select_without_duplicates nat_values example_session [s2l "a"] Hnd)).
Defined.

(** ** The further methods *)

Section RestFacts.
Import Session SessionRest.
Context `{Core} `{!Objects}.

(** [connectionInfo] and its two flags. Under [src/src] both flags, or
    neither, raise, whatever the address; with exactly one flag the two
    revisions return the same. Under [src/python] both flags are read as
    the first alone and no flag returns [None]. *)
Theorem connectionInfo_flags (s : MockedSession) (dagpath : str) :
  (forall sourceFromDestination destinationFromSource : bool,
      CmdsRest.connectionInfo dagpath sourceFromDestination destinationFromSource s =
      if xorb sourceFromDestination destinationFromSource
      then CmdsPythonRest.connectionInfo dagpath sourceFromDestination
             destinationFromSource s
      else inl (QRuntimeError
                  (if sourceFromDestination
                   then s2l "You cannot specify more than one flag."
                   else s2l "You must specify exactly one flag.")))
  /\ CmdsPythonRest.connectionInfo dagpath true true s
     = CmdsPythonRest.connectionInfo dagpath true false s
  /\ CmdsPythonRest.connectionInfo dagpath false false s = inr NoInfo.
Proof.
  split; [|split; reflexivity].
  intros [|] [|]; reflexivity.
Qed.

Lemma no_input_not_connected (s : MockedSession) (p q : MockedPort) :
  get_port_input_connections (Some q) s = [] -> connected s p q = false.
Proof.
  intros Hin. unfold connected. apply Bool.not_true_is_false. intros E.
  apply existsb_exists in E as (c & Hc & Hcon).
  unfold connects in Hcon. apply andb_prop in Hcon as [_ Hdst].
  assert (Hmem : In c (get_port_input_connections (Some q) s)).
  { unfold get_port_input_connections. apply filter_In. now split. }
  rewrite Hin in Hmem. exact Hmem.
Qed.

(** After [connectAttr] on a destination that had no input and a source
    that had no output, [connectionInfo] tells the one from the other:
    asked for the source of the destination it returns the name of the
    source port, asked for the destinations of the source it returns the
    name of the destination port alone. Both revisions. *)
Theorem connectionInfo_after_connectAttr (s : MockedSession) (src dst : str)
        (p q : MockedPort) :
  resolve_port (nodes s) (ports s) src = Some p ->
  resolve_port (nodes s) (ports s) dst = Some q ->
  get_port_input_connections (Some q) s = [] ->
  get_port_output_connections (Some p) s = [] ->
  let s' := with_connection s p q in
  Cmds.connectAttr src dst s = Ok tt s'
  /\ CmdsPython.connectAttr src dst s = Ok tt s'
  /\ CmdsRest.connectionInfo dst true false s' = inr (Plug (port_melobject s' p))
  /\ CmdsRest.connectionInfo src false true s' = inr (Plugs [port_melobject s' q])
  /\ CmdsPythonRest.connectionInfo dst true false s' = inr (Plug (port_melobject s' p))
  /\ CmdsPythonRest.connectionInfo src false true s' = inr (Plugs [port_melobject s' q]).
Proof.
  intros Hp Hq Hin Hout s'.
  pose proof (no_input_not_connected s p q Hin) as E.
  split; [rewrite (cmds_connectAttr_eq s src dst p q Hp Hq), E; reflexivity|].
  split; [rewrite (python_connectAttr_eq s src dst p q Hp Hq), E; reflexivity|].
  assert (Hin' : get_port_input_connections (Some q) s'
                 = [mkConnection (Some p) (Some q)]).
  { unfold get_port_input_connections, s', with_connection. cbn [connections].
    unfold get_port_input_connections in Hin. rewrite filter_app, Hin.
    cbn. now rewrite Nat.eqb_refl. }
  assert (Hout' : get_port_output_connections (Some p) s'
                  = [mkConnection (Some p) (Some q)]).
  { unfold get_port_output_connections, s', with_connection. cbn [connections].
    unfold get_port_output_connections in Hout. rewrite filter_app, Hout.
    cbn. now rewrite Nat.eqb_refl. }
  unfold CmdsRest.connectionInfo, CmdsPythonRest.connectionInfo.
  change (nodes s') with (nodes s). change (ports s') with (ports s).
  rewrite Hp, Hq, Hin', Hout'. repeat split.
Qed.

(** [getAttr] and [setAttr] on an address without a port raise and
    change nothing: [getAttr] a [ValueError] that names the address under
    [src/src] and an [AttributeError] under [src/python], [setAttr] an
    [AttributeError] in both. *)
Theorem attribute_access_without_port (s : MockedSession) (dagpath : str) (v : value) :
  resolve_port (nodes s) (ports s) dagpath = None ->
  CmdsRest.getAttr dagpath s
    = inl (QValueError (s2l "No object matches name: " ++ dagpath))
  /\ CmdsPythonRest.getAttr dagpath s = inl QAttributeError
  /\ CmdsRest.setAttr dagpath v s = Raise AttributeError s
  /\ CmdsPythonRest.setAttr dagpath v s = Raise AttributeError s.
Proof.
  intros Hnone.
  unfold CmdsRest.getAttr, CmdsPythonRest.getAttr, CmdsRest.setAttr,
    CmdsPythonRest.setAttr, bind, get_port_by_match.
  rewrite Hnone. repeat split.
Qed.

(** What [setAttr] writes [getAttr] reads, when the address resolves to
    the same stored port whatever the values are. The ports keep their
    number and their names. Both revisions. *)
Theorem setAttr_then_getAttr (s : MockedSession) (dagpath : str) (v : value)
        (p : MockedPort) :
  resolve_port (nodes s) (ports s) dagpath = Some p ->
  resolve_port (nodes s) (map (assign_value p v) (ports s)) dagpath
    = Some (assign_value p v p) ->
  let s' := with_value s p v in
  CmdsRest.setAttr dagpath v s = Ok tt s'
  /\ CmdsPythonRest.setAttr dagpath v s = Ok tt s'
  /\ CmdsRest.getAttr dagpath s' = inr v
  /\ CmdsPythonRest.getAttr dagpath s' = inr v
  /\ map port_name (ports s') = map port_name (ports s)
  /\ map port_id (ports s') = map port_id (ports s).
Proof.
  intros Hp Hafter s'.
  assert (Hval : port_value (assign_value p v p) = v).
  { unfold assign_value. now rewrite Nat.eqb_refl. }
  unfold CmdsRest.setAttr, CmdsPythonRest.setAttr, CmdsRest.getAttr,
    CmdsPythonRest.getAttr, bind, get_port_by_match.
  rewrite Hp. change (nodes s') with (nodes s).
  change (ports s') with (map (assign_value p v) (ports s)).
  rewrite Hafter, Hval. repeat split.
  - rewrite map_map. apply map_ext. intros x. unfold assign_value.
    now destruct (port_id x =? port_id p).
  - rewrite map_map. apply map_ext. intros x. unfold assign_value.
    now destruct (port_id x =? port_id p).
Qed.

Lemma select_singleton (name : str) (s : MockedSession) :
  CmdsPython.select [name] s = Cmds.select [name] s.
Proof.
  rewrite python_select_eq, cmds_select_eq. cbn [flat_map].
  now rewrite app_nil_r.
Qed.

(** [createNode] returns what [__melobject__] of the new node gives and,
    unless [skipSelect] is set, selects the stored nodes whose name is
    that text; an error of [create_node] is passed on. The two revisions
    do the same. *)
Theorem createNode_outcome (s : MockedSession) (type_ : str)
        (name parent : option str) (shared : option bool) (skipSelect : bool) :
  let parent_node :=
    if truthy parent
    then resolve_node (nodes s) (match parent with Some p => p | None => [] end)
    else None in
  CmdsRest.createNode type_ name parent skipSelect s =
    match create_node type_ name parent_node s with
    | Raise e s1 => Raise e s1
    | Ok node s1 =>
        let returned := node_melobject s1 node in
        Ok returned
           (if skipSelect then s1
            else mkSession (nodes s1) (ports s1) (connections s1)
                           (named_nodes [returned] s1) (warnings s1))
    end
  /\ CmdsPythonRest.createNode type_ name parent shared skipSelect s
     = CmdsRest.createNode type_ name parent skipSelect s.
Proof.
  cbv zeta. unfold CmdsRest.createNode, CmdsPythonRest.createNode, bind,
    get_node_by_match, gets, ret.
  destruct (truthy parent).
  - destruct (create_node type_ name _ s) as [node s1|e s1]; [|split; reflexivity].
    destruct skipSelect; cbn [negb]; [split; reflexivity|].
    rewrite select_singleton. split; reflexivity.
  - destruct (create_node type_ name None s) as [node s1|e s1]; [|split; reflexivity].
    destruct skipSelect; cbn [negb]; [split; reflexivity|].
    rewrite select_singleton. split; reflexivity.
Qed.

End RestFacts.

Lemma connectionInfo_after_connectAttr_witness :
  @SessionRest.get_port_input_connections nat_values (Some example_port_b)
    example_session = []
  /\ @SessionRest.get_port_output_connections nat_values (Some example_port_a)
       example_session = []
  /\ @CmdsRest.connectionInfo nat_values example_core example_objects (s2l "b.tx")
       true false
       (Session.with_connection example_session example_port_a example_port_b)
     = inr (SessionRest.Plug (s2l "a.tx")).
Proof.
  split; [reflexivity|]. split; [reflexivity|].
  exact (proj1 (proj2 (proj2
           (@connectionInfo_after_connectAttr nat_values example_core example_objects
              example_session (s2l "a.tx") (s2l "b.tx") example_port_a example_port_b
              eq_refl eq_refl eq_refl eq_refl)))).
Defined.

Lemma attribute_access_without_port_witness :
  @Session.resolve_port nat_values example_core (Session.nodes example_session)
    (Session.ports example_session) (s2l "a.ty") = None
  /\ @CmdsRest.getAttr nat_values example_core (s2l "a.ty") example_session
     = inl (SessionRest.QValueError (s2l "No object matches name: a.ty")).
Proof.
  split; [reflexivity|].
  exact (proj1 (@attribute_access_without_port nat_values example_core example_session
                  (s2l "a.ty") 0 eq_refl)).
Defined.

Lemma setAttr_then_getAttr_witness :
  @Session.resolve_port nat_values example_core (Session.nodes example_session)
    (Session.ports example_session) (s2l "a.tx") = Some example_port_a
  /\ @Session.resolve_port nat_values example_core (Session.nodes example_session)
       (map (SessionRest.assign_value example_port_a 7) (Session.ports example_session))
       (s2l "a.tx")
     = Some (SessionRest.assign_value example_port_a 7 example_port_a)
  /\ @CmdsRest.getAttr nat_values example_core (s2l "a.tx")
       (SessionRest.with_value example_session example_port_a 7)
     = inr 7.
Proof.
  split; [reflexivity|]. split; [reflexivity|].
  exact (proj1 (proj2 (proj2
           (@setAttr_then_getAttr nat_values example_core example_session
              (s2l "a.tx") 7 example_port_a eq_refl eq_refl)))).
Defined.

Lemma connect_then_disconnect_restores_witness :
  Session.connected example_session example_port_a example_port_b = false
  /\ (_ <- @Cmds.connectAttr nat_values example_core (s2l "a.tx") (s2l "b.tx") ;;
      @Cmds.disconnectAttr nat_values example_core (s2l "a.tx") (s2l "b.tx"))
       example_session
     = Session.Ok tt example_session.
Proof.
  split; [reflexivity|].
  exact (proj1 (@connect_then_disconnect_restores nat_values example_core
                  example_session (s2l "a.tx") (s2l "b.tx")
                  example_port_a example_port_b eq_refl eq_refl eq_refl)).
Defined.

Lemma disconnectAttr_removes_the_edge_witness :
  let s := Session.with_connection example_session example_port_a example_port_b in
  Session.connected s example_port_a example_port_b = true
  /\ @Cmds.disconnectAttr nat_values example_core (s2l "a.tx") (s2l "b.tx") s
     = Session.Ok tt
         (SessionRest.without_connection s (Some example_port_a) (Some example_port_b)).
Proof.
  cbv zeta. split; [reflexivity|].
  exact (proj1 (@disconnectAttr_removes_the_edge nat_values example_core
                  (Session.with_connection example_session example_port_a example_port_b)
                  (s2l "a.tx") (s2l "b.tx") example_port_a example_port_b
                  eq_refl eq_refl eq_refl)).
Defined.

Lemma python_disconnectAttr_without_port_witness :
  (@Session.resolve_port nat_values example_core (Session.nodes example_session)
     (Session.ports example_session) (s2l "a.ty") = None
   \/ @Session.resolve_port nat_values example_core (Session.nodes example_session)
        (Session.ports example_session) (s2l "b.tx") = None)
  /\ @CmdsPython.disconnectAttr nat_values example_core (s2l "a.ty") (s2l "b.tx")
       example_session
     = Session.Raise Session.AttributeError example_session.
Proof.
  split; [left; reflexivity|].
  exact (@python_disconnectAttr_without_port nat_values example_core example_session
           (s2l "a.ty") (s2l "b.tx") (or_introl eq_refl) eq_refl).
Defined.

(** ** No pattern *)

(** Without a pattern [pattern_to_regex] returns the expression of a dot
    and a star, and the matcher accepts every path, line breaks
    included. *)
Theorem no_pattern_expression :
  pattern_to_regex None = s2l ".*"
  /\ Re.compile (pattern_to_regex None) = Some (Re.Star Re.Dot)
  /\ forall path : str, path_matches None path = Some true.
Proof.
  split; [reflexivity|]. split; [reflexivity|].
  exact no_pattern_matches_every_path.
Qed.

(** ** Relative patterns, in the words of the specification *)

Lemma denotes_glob (p s : str) : denotes p s -> glob p s.
Proof.
  intros Hd. induction Hd as [|p c w s Hc Hw Hd IH|c p s Hc Hd IH].
  - constructor.
  - change (c :: w ++ s) with ((c :: w) ++ s). constructor; [|assumption].
    cbn [forallb]. now rewrite Hc, Hw.
  - now constructor.
Qed.

Lemma denotes_without_wildcard (p s : str) :
  ascii_in "*" p = false -> denotes p s -> s = p.
Proof.
  intros Hp Hd. apply denotes_glob in Hd.
  now apply (glob_without_wildcard p s Hp).
Qed.

(** C3 as it is worded fails in two places that have nothing to do with
    the wildcard. The end-of-text anchor of [re] holds before a
    line break that ends the path, so the pattern "a" matches the path
    made of "a" and a line break, of which it denotes no suffix. And a
    pattern reaches [re] unescaped, so the dot of "a.b" is the dot of an
    expression: "a.b" matches "aXb", of which it denotes no suffix. *)
Lemma relative_pattern_counterexample :
  (startswith (s2l "|") (s2l "a") = false
   /\ path_matches (Some (s2l "a")) (s2l "a" ++ [newline]) = Some true
   /\ ~ exists before suffix : str,
         s2l "a" ++ [newline] = before ++ suffix /\ segment_start before
         /\ denotes (s2l "a") suffix)
  /\ (startswith (s2l "|") (s2l "a.b") = false
      /\ path_matches (Some (s2l "a.b")) (s2l "aXb") = Some true
      /\ ~ exists before suffix : str,
            s2l "aXb" = before ++ suffix /\ segment_start before
            /\ denotes (s2l "a.b") suffix).
Proof.
  split; (split; [reflexivity|]; split; [reflexivity|]).
  - intros (before & suffix & E & _ & Hd).
    apply denotes_without_wildcard in Hd; [|reflexivity]. subst suffix.
    destruct before as [|x [|y before]]; try discriminate E.
    injection E as _ _ E. destruct before; discriminate E.
  - intros (before & suffix & E & _ & Hd).
    apply denotes_without_wildcard in Hd; [|reflexivity]. subst suffix.
    destruct before as [|x before]; [discriminate E|].
    injection E as _ E.
    destruct before as [|y [|z before]]; try discriminate E.
    injection E as _ _ E. destruct before; discriminate E.
Qed.

(** C3, amended: for a relative pattern made of the wildcard, the
    separator and characters that are literal in an expression, and a
    path of ASCII text without line break. If the pattern denotes, each
    wildcard standing for one or more word characters, a suffix of the
    path that begins at a segment start, the matcher matches. If the
    matcher matches, the match is a suffix of the path that begins at a
    segment start, the start of the path or the position after a
    separator, and that runs to the end of the path, never ending inside
    a segment or before a later one; in it every character of the
    pattern but the wildcard stands for itself and a wildcard for word
    characters only. How many characters a wildcard needs is not
    settled here. *)
Theorem relative_pattern_suffix_bounds (p path : str) :
  forallb is_pattern_char p = true ->
  startswith (s2l "|") p = false ->
  forallb is_ascii path = true ->
  no_newline path = true ->
  ((exists before suffix : str,
       path = before ++ suffix /\ segment_start before /\ denotes p suffix) ->
   path_matches (Some p) path = Some true)
  /\ (path_matches (Some p) path = Some true ->
      exists before suffix : str,
        path = before ++ suffix /\ segment_start before /\ glob p suffix).
Proof.
  intros Hp _ _ Hnl. split.
  - intros (before & suffix & Hpath & Hstart & Hd).
    apply (pattern_matches_suffix p path Hp Hnl).
    exists before, suffix. repeat split; try assumption.
    now apply denotes_glob.
  - intros Hm. now apply (pattern_matches_suffix p path Hp Hnl).
Qed.

Lemma relative_pattern_suffix_bounds_witness :
  forallb is_pattern_char (s2l "loc*") = true
  /\ startswith (s2l "|") (s2l "loc*") = false
  /\ forallb is_ascii (s2l "|group1|locator1") = true
  /\ no_newline (s2l "|group1|locator1") = true
  /\ path_matches (Some (s2l "loc*")) (s2l "|group1|locator1") = Some true.
Proof.
  split; [reflexivity|]. split; [reflexivity|]. split; [reflexivity|].
  split; [reflexivity|].
  apply (proj1 (relative_pattern_suffix_bounds (s2l "loc*") (s2l "|group1|locator1")
                  eq_refl eq_refl eq_refl eq_refl)).
  exists (s2l "|group1|"), (s2l "locator1"). split; [reflexivity|].
  split; [right; now exists (s2l "|group1")|].
  apply (denotes_char "l"); [discriminate|].
  apply (denotes_char "o"); [discriminate|].
  apply (denotes_char "c"); [discriminate|].
  apply (denotes_wild [] "a" (s2l "tor1") []); [reflexivity|reflexivity|].
  constructor.
Defined.
